(** * Document chunking, local insights, response parsing and keyword retrieval

    A shallow embedding of the deterministic core of the document
    intelligence system: [BaseProcessor] (chunking and local insights),
    [config] (configuration validation), [InsightAnalyzer] (keyword
    retrieval and response parsing), [SummaryAnalyzer] (summary parsing),
    [DocumentStore] (the in-memory store) and [ProcessorFactory] (the choice
    of a processor by file extension).

    Conventions of the embedding.
    - A JavaScript string is the list of its UTF-16 code units ([list N]).
    - JavaScript numbers that hold offsets, counts and scores are integers
      ([Z] or [nat]); the source never produces a fraction in them except
      through [Math.ceil (wordCount / 200)], which is written as the integer
      ceiling.
    - [toLowerCase] folds the letters A-Z; code units outside ASCII are left
      as they are.  On ASCII strings ([is_ascii]) this is what
      [String.prototype.toLowerCase] computes; on other strings the runtime
      also folds the other cased letters.  Every property that depends on
      the result of lower-casing is stated for ASCII strings.
    - An exception is an explicit [Throw] outcome; a rejected promise is the
      same outcome.  [try { .. } catch { .. }] is [try_catch].
    - Host facilities that the repository only calls ([uuidv4], [JSON.parse],
      the language-model client) are parameters of the sections that use
      them. *)

From Stdlib Require Import String Ascii.
From Stdlib Require Import QArith.
From Stdlib Require Import List ZArith NArith Lia Bool.
From Stdlib Require Import Permutation Sorted.
Import ListNotations.

Local Open Scope Z_scope.

(* ================================================================== *)
(** * JavaScript strings *)
(* ================================================================== *)

Module JsString.

Definition jsstring := list N.

(** [js "abc"] is the JavaScript string with the same ASCII text. *)
Definition js (s : string) : jsstring :=
  map N_of_ascii (list_ascii_of_string s).

Definition newline : N := 10%N.
Definition space : N := 32%N.
Definition bullet : N := 8226%N.      (* U+2022 *)
Definition hyphen : N := 45%N.
Definition plus_sign : N := 43%N.
Definition full_stop : N := 46%N.
Definition left_brace : N := 123%N.
Definition right_brace : N := 125%N.

Definition in_range (lo hi c : N) : bool := (N.leb lo c && N.leb c hi)%bool.

(** [\d] *)
Definition is_digit (c : N) : bool := in_range 48 57 c.

(** Line terminators: LF, CR, U+2028, U+2029 (what [.] refuses). *)
Definition is_line_terminator (c : N) : bool :=
  (N.eqb c 10 || N.eqb c 13 || N.eqb c 8232 || N.eqb c 8233)%bool.

(** [\s], also the set that [trim] strips. *)
Definition is_space (c : N) : bool :=
  (in_range 9 13 c || N.eqb c 32 || N.eqb c 160 || N.eqb c 5760
   || in_range 8192 8202 c || N.eqb c 8232 || N.eqb c 8233
   || N.eqb c 8239 || N.eqb c 8287 || N.eqb c 12288 || N.eqb c 65279)%bool.

(** The characters with a meaning of their own in a regular expression. *)
Definition is_regex_special (c : N) : bool :=
  existsb (N.eqb c)
    [92; 94; 36; 46; 124; 63; 42; 43; 40; 41; 91; 93; 123; 125]%N.

Definition lower_unit (c : N) : N :=
  if in_range 65 90 c then (c + 32)%N else c.

(** [s.toLowerCase()] on the letters A to Z.  The runtime also folds the
    cased letters beyond ASCII; the model leaves them as they are. *)
Definition toLowerCase (s : jsstring) : jsstring := map lower_unit s.

(** The strings on which [toLowerCase] is the fold of the runtime: every
    code unit is below 128. *)
Definition is_ascii (s : jsstring) : bool := forallb (fun c => N.ltb c 128) s.

Fixpoint drop_while (p : N -> bool) (s : jsstring) : jsstring :=
  match s with
  | [] => []
  | c :: r => if p c then drop_while p r else s
  end.

Fixpoint take_while (p : N -> bool) (s : jsstring) : jsstring :=
  match s with
  | [] => []
  | c :: r => if p c then c :: take_while p r else []
  end.

Definition trimStart (s : jsstring) : jsstring := drop_while is_space s.
Definition trimEnd (s : jsstring) : jsstring := rev (drop_while is_space (rev s)).
Definition trim (s : jsstring) : jsstring := trimEnd (trimStart s).

Fixpoint startsWith (s p : jsstring) : bool :=
  match p, s with
  | [], _ => true
  | a :: p', b :: s' => (N.eqb a b && startsWith s' p')%bool
  | _ :: _, [] => false
  end.

(** [a === b] on strings. *)
Definition jsstring_eqb (a b : jsstring) : bool :=
  (Nat.eqb (length a) (length b) && startsWith a b)%bool.

Fixpoint includes (s needle : jsstring) : bool :=
  (startsWith s needle ||
   match s with
   | [] => false
   | _ :: r => includes r needle
   end)%bool.

(** [s.split(sep)] for a one-character separator: empty pieces are kept
    and the empty string gives one empty piece. *)
Fixpoint split_on (sep : N) (s : jsstring) : list jsstring :=
  match s with
  | [] => [[]]
  | c :: r =>
      if N.eqb c sep then [] :: split_on sep r
      else match split_on sep r with
           | h :: t => (c :: h) :: t
           | [] => [[c]]
           end
  end.

(** [s.split(/\s+/)]: every maximal run of white space is one separator;
    white space at either end leaves an empty piece there. *)
Fixpoint split_ws_go (in_sep : bool) (cur s : jsstring) : list jsstring :=
  match s with
  | [] => [cur]
  | c :: r =>
      if is_space c then
        if in_sep then split_ws_go true [] r
        else cur :: split_ws_go true [] r
      else split_ws_go false (cur ++ [c]) r
  end.

Definition split_ws (s : jsstring) : list jsstring := split_ws_go false [] s.

(** Relative index of [slice]: a negative index counts from the end. *)
Definition rel_index (len i : Z) : Z :=
  if i <? 0 then Z.max (len + i) 0 else Z.min i len.

Definition slice (s : jsstring) (start finish : Z) : jsstring :=
  let len := Z.of_nat (length s) in
  let from := rel_index len start in
  let to := rel_index len finish in
  firstn (Z.to_nat (to - from)) (skipn (Z.to_nat from) s).

(** [s.substring(0, n)] for a literal [n >= 0]. *)
Definition substring0 (s : jsstring) (n : nat) : jsstring := firstn n s.

Definition join_lines (ls : list jsstring) : jsstring :=
  match ls with
  | [] => []
  | l :: rest => l ++ flat_map (fun x => newline :: x) rest
  end.

(** [parseInt] of a string of decimal digits. *)
Definition digit_value (c : N) : Z := Z.of_N c - 48.
Definition parseInt_digits (ds : jsstring) : Z :=
  fold_left (fun acc c => 10 * acc + digit_value c) ds 0.

End JsString.
Import JsString.

(* ================================================================== *)
(** * Outcomes of calls that may throw *)
(* ================================================================== *)

Section Outcomes.

(** The exceptions of the language-model client and of [JSON.parse] are
    [E]; [NewError m] is [new Error(m)] built by the repository;
    [TypeError] is the runtime's, on reading a property of [null]. *)
Context {E : Type}.

Inductive thrown : Type :=
| Raised (e : E)
| NewError (message : jsstring)
| TypeError.

Inductive result (A : Type) : Type :=
| Ok (a : A)
| Throw (t : thrown).

End Outcomes.

Arguments thrown E : clear implicits.
Arguments result E A : clear implicits.
Arguments Ok {E A} a.
Arguments Throw {E A} t.

Definition bind {E A B} (r : result E A) (k : A -> result E B) : result E B :=
  match r with
  | Ok a => k a
  | Throw t => Throw t
  end.

Definition try_catch {E A} (body : result E A) (handler : thrown E -> result E A)
  : result E A :=
  match body with
  | Ok a => Ok a
  | Throw t => handler t
  end.

Notation "x <- c ;; k" := (bind c (fun x => k))
  (at level 61, c at next level, right associativity).

(* ================================================================== *)
(** * core/types.ts and processors/BaseProcessor.ts *)
(* ================================================================== *)

Record DocumentMetadata := {
  filename : jsstring;
  fileType : jsstring;
  size : Z
}.

Record Document := {
  doc_id : jsstring;
  doc_content : jsstring;
  doc_metadata : DocumentMetadata
}.

Record ChunkMetadata := {
  startChar : Z;
  endChar : Z
}.

Record DocumentChunk := {
  id : jsstring;
  documentId : jsstring;
  content : jsstring;
  index : Z;
  metadata : ChunkMetadata
}.

Record Insights := {
  wordCount : Z;
  estimatedReadingTime : Z;
  language : jsstring
}.

Module BaseProcessor.

Section Chunks.

(** [uuidv4 ()] draws from a source of randomness: it consumes the state
    of the generator and leaves the next one. *)
Context {RNG : Type} (uuidv4 : RNG -> jsstring * RNG).

(** The variables of the [while] loop of [createChunks]. *)
Record loop_state := {
  chunks : list DocumentChunk;
  startIndex : Z;
  chunkIndex : Z;
  rng : RNG
}.

Definition loop_init (g : RNG) : loop_state :=
  {| chunks := []; startIndex := 0; chunkIndex := 0; rng := g |}.

Definition loop_cond (content : jsstring) (st : loop_state) : bool :=
  startIndex st <? Z.of_nat (length content).

Definition loop_body (document : Document) (content : jsstring)
    (chunkSize overlap : Z) (st : loop_state) : loop_state :=
  let endIndex := Z.min (startIndex st + chunkSize) (Z.of_nat (length content)) in
  let chunkContent := slice content (startIndex st) endIndex in
  let (fresh, g) := uuidv4 (rng st) in
  let chunk :=
    {| id := fresh;
       documentId := doc_id document;
       content := chunkContent;
       index := chunkIndex st;
       metadata := {| startChar := startIndex st; endChar := endIndex |} |} in
  {| chunks := chunks st ++ [chunk];
     startIndex := endIndex - overlap;
     chunkIndex := chunkIndex st + 1;
     rng := g |}.

(** The loop, run for at most [fuel] tests of its condition.  [None]: the
    condition still held when the fuel ran out. *)
Fixpoint while_loop (fuel : nat) (document : Document) (content : jsstring)
    (chunkSize overlap : Z) (st : loop_state) : option loop_state :=
  match fuel with
  | O => None
  | S fuel' =>
      if loop_cond content st
      then while_loop fuel' document content chunkSize overlap
             (loop_body document content chunkSize overlap st)
      else Some st
  end.

Definition createChunks (fuel : nat) (document : Document) (content : jsstring)
    (chunkSize overlap : Z) (g : RNG) : option (list DocumentChunk * RNG) :=
  match while_loop fuel document content chunkSize overlap (loop_init g) with
  | Some st => Some (chunks st, rng st)
  | None => None
  end.

End Chunks.

Definition englishWords : list jsstring :=
  map js ["the"; "and"; "or"; "but"; "in"; "on"; "at"; "to"; "for"; "of";
          "with"; "by"]%string.

(** [englishCount > words.length * 0.1], compared exactly. *)
Definition detectLanguage (content : jsstring) : jsstring :=
  let words := split_ws (toLowerCase content) in
  let englishCount :=
    length (filter (fun word => existsb (jsstring_eqb word) englishWords) words) in
  if Z.of_nat (length words) <? 10 * Z.of_nat englishCount
  then js "english" else js "unknown".

Definition nonempty (word : jsstring) : bool :=
  match word with [] => false | _ :: _ => true end.

(** [Math.ceil (n / 200)] on a count [n >= 0]. *)
Definition ceil_div200 (n : Z) : Z := (n + 199) / 200.

Definition generateInsights (content : jsstring) : Insights :=
  let words := filter nonempty (split_ws content) in
  let wordCount := Z.of_nat (length words) in
  let estimatedReadingTime := ceil_div200 wordCount in
  {| wordCount := wordCount;
     estimatedReadingTime := estimatedReadingTime;
     language := detectLanguage content |}.

End BaseProcessor.


(* ================================================================== *)
(** * core/config.ts and core/models.ts *)
(* ================================================================== *)

Module Config.

Record AppConfig := {
  openai_apiKey : jsstring;
  groq_apiKey : jsstring;
  huggingface_apiKey : jsstring;
  chunkSize : Z;
  chunkOverlap : Z;
  maxResults : Z
}.

(** [!!s] on a string. *)
Definition truthy_string (s : jsstring) : bool :=
  match s with [] => false | _ :: _ => true end.

Definition validateConfig (config : AppConfig) : bool :=
  let hasOpenAI := truthy_string (openai_apiKey config) in
  let hasGroq := truthy_string (groq_apiKey config) in
  let hasHuggingFace := truthy_string (huggingface_apiKey config) in
  if (negb hasOpenAI && negb hasGroq && negb hasHuggingFace)%bool
  then false
  else true.

End Config.

(** A prompt is identified by its template and by the values interpolated
    into it; the fixed wording of the templates is not reproduced. *)
Inductive prompt : Type :=
| KeywordPrompt (excerpt : jsstring)
| InsightPrompt (excerpt : jsstring)
| QuestionsPrompt (excerpt : jsstring)
| AbstractPrompt (excerpt : jsstring)
| SummaryPrompt (maxLength : Z) (styleInstruction focus excerpt : jsstring).

Module ModelManager.

Section Clients.

Context {E : Type}.
(** [invoke] of the two chat clients, already reduced to
    [response.content.toString ()]. *)
Context (groq_invoke openai_invoke : prompt -> result E jsstring).

Definition getLLM (config : Config.AppConfig)
  : result E (prompt -> result E jsstring) :=
  if Config.truthy_string (Config.groq_apiKey config) then Ok groq_invoke
  else if Config.truthy_string (Config.openai_apiKey config) then Ok openai_invoke
  else Throw (NewError
         (js "Either Groq or OpenAI API key is required for LLM operations")).

End Clients.

End ModelManager.

(* ================================================================== *)
(** * JSON values as [JSON.parse] returns them *)
(* ================================================================== *)

#[local] Set Warnings "-register-all".

Inductive json : Type :=
| JNull
| JBool (b : bool)
| JNum (q : Q)
| JStr (s : jsstring)
| JArr (items : list json)
| JObj (props : list (jsstring * json)).

Module Json.

Definition truthy (v : json) : bool :=
  match v with
  | JNull => false
  | JBool b => b
  | JNum q => negb (Qnum q =? 0)
  | JStr s => Config.truthy_string s
  | JArr _ => true
  | JObj _ => true
  end.

Fixpoint lookup (name : jsstring) (props : list (jsstring * json)) : option json :=
  match props with
  | [] => None
  | (k, v) :: rest =>
      if jsstring_eqb k name then Some v else lookup name rest
  end.

(** [v.name] for the field names read by the parsers: a property of an
    object ([JSON.parse] keeps one value per key), [undefined] ([None]) on
    any other value, a [TypeError] on [null]. *)
Definition get_prop {E} (v : json) (name : jsstring) : result E (option json) :=
  match v with
  | JNull => Throw TypeError
  | JObj props => Ok (lookup name props)
  | _ => Ok None
  end.

(** [v || d] where [v] may be [undefined]. *)
Definition js_or (v : option json) (d : json) : json :=
  match v with
  | Some x => if truthy x then x else d
  | None => d
  end.

End Json.

(* ================================================================== *)
(** * Stable sorting, as [Array.prototype.sort] with a comparator *)
(* ================================================================== *)

Section Sort.

Context {A : Type} (cmp : A -> A -> Z).

Fixpoint insert_sorted (x : A) (l : list A) : list A :=
  match l with
  | [] => [x]
  | y :: rest => if cmp x y <=? 0 then x :: l else y :: insert_sorted x rest
  end.

Definition stable_sort (l : list A) : list A := fold_right insert_sorted [] l.

End Sort.

(* ================================================================== *)
(** * analyzers/InsightAnalyzer.ts *)
(* ================================================================== *)

Record KeywordExtractionResult := {
  keywords : json;
  entities : json;
  kw_topics : json;
  concepts : json
}.

Record InsightAnalysisResult := {
  sentiment : json;
  topics : json;
  complexity : json;
  readabilityScore : json;
  keyInsights : json;
  recommendations : json
}.

Module InsightAnalyzer.

(** ** findSimilarConcepts *)

(** A query word is handed to [new RegExp(word, 'g')].  The embedding covers
    the words without a special character, for which the expression matches
    the word itself; on any other word the count is [None] (not modelled). *)
Definition is_literal_pattern (word : jsstring) : bool :=
  forallb (fun c => negb (is_regex_special c)) word.

(** Matches of a non-empty literal, scanned left to right; after a match the
    scan resumes behind it ([skip] code units are still covered by it). *)
Fixpoint count_from (skip : nat) (word s : jsstring) : nat :=
  match s with
  | [] => O
  | _ :: r =>
      match skip with
      | S k => count_from k word r
      | O => if startsWith s word
             then S (count_from (length word - 1) word r)
             else count_from O word r
      end
  end.

(** The empty expression matches once at every position, the end included. *)
Definition literal_match_count (word s : jsstring) : nat :=
  match word with
  | [] => S (length s)
  | _ :: _ => count_from O word s
  end.

(** [(content.match(new RegExp(word, 'g')) || []).length] for a word that
    holds no character with a meaning of its own in a regular expression.
    For the other words the expression may match otherwise or fail to
    compile: the model gives no count ([None]) there. *)
Definition match_count (word content : jsstring) : option nat :=
  if is_literal_pattern word then Some (literal_match_count word content)
  else None.

Definition chunk_score (queryWords : list jsstring) (chunk : DocumentChunk)
  : option nat :=
  let content := toLowerCase (content chunk) in
  fold_left
    (fun acc word =>
       match acc, match_count word content with
       | Some a, Some count => Some (a + count)%nat
       | _, _ => None
       end)
    queryWords (Some O).

Fixpoint score_all (queryWords : list jsstring) (chunks : list DocumentChunk)
  : option (list (DocumentChunk * nat)) :=
  match chunks with
  | [] => Some []
  | chunk :: rest =>
      match chunk_score queryWords chunk, score_all queryWords rest with
      | Some score, Some scored => Some ((chunk, score) :: scored)
      | _, _ => None
      end
  end.

(** [(a, b) => b.score - a.score] *)
Definition by_score_desc (a b : DocumentChunk * nat) : Z :=
  Z.of_nat (snd b) - Z.of_nat (snd a).

Definition findSimilarConcepts (chunks : list DocumentChunk) (query : jsstring)
  : option (list DocumentChunk) :=
  let queryWords := split_on space (toLowerCase query) in
  match score_all queryWords chunks with
  | Some scored =>
      Some (map fst
              (firstn 5
                 (stable_sort by_score_desc
                    (filter (fun item => (0 <? snd item)%nat) scored))))
  | None => None
  end.

(** ** extractListFromText and parseQuestions *)

(** [(.+)] at the head of [s]: as many code units as are on the line, at
    least one. *)
Definition dot_plus (s : jsstring) : option jsstring :=
  match take_while (fun c => negb (is_line_terminator c)) s with
  | [] => None
  | cap => Some cap
  end.

(** [\s*(.+)] at the head of [s]: the longest run of white space that still
    leaves something for the group. *)
Fixpoint ws_dot_plus (s : jsstring) : option jsstring :=
  match s with
  | [] => None
  | c :: r =>
      if is_space c then
        match ws_dot_plus r with
        | Some cap => Some cap
        | None => dot_plus s
        end
      else dot_plus s
  end.

(** The class [[•\-\d+\.]]: one bullet, hyphen, digit, plus sign or full stop. *)
Definition is_item_prefix (c : N) : bool :=
  (N.eqb c bullet || N.eqb c hyphen || is_digit c || N.eqb c plus_sign
   || N.eqb c full_stop)%bool.

(** [line.match(/[•\-\d+\.]\s*(.+)/)], the group of the leftmost match. *)
Fixpoint match_item (line : jsstring) : option jsstring :=
  match line with
  | [] => None
  | c :: r =>
      if is_item_prefix c then
        match ws_dot_plus r with
        | Some cap => Some cap
        | None => match_item r
        end
      else match_item r
  end.

(** [/^\d+\./]: the rest of the line behind the digits and the full stop. *)
Definition after_number (line : jsstring) : option jsstring :=
  match take_while is_digit line with
  | [] => None
  | _ :: _ =>
      match drop_while is_digit line with
      | c :: r => if N.eqb c full_stop then Some r else None
      | [] => None
      end
  end.

Definition is_numbered (line : jsstring) : bool :=
  match after_number line with Some _ => true | None => false end.

Definition list_step (listName : jsstring) (st : list jsstring * bool)
    (line : jsstring) : list jsstring * bool :=
  let (items, inSection) := st in
  if includes (toLowerCase line) (toLowerCase listName) then (items, true)
  else if inSection then
    match match_item line with
    | Some group => (items ++ [trim group], inSection)
    | None =>
        if (negb (Config.truthy_string (trim line)) || is_numbered line)%bool
        then (items, false)
        else (items, inSection)
    end
  else (items, inSection).

Definition extractListFromText (text listName : jsstring) : list jsstring :=
  let lines := split_on newline text in
  fst (fold_left (list_step listName) lines ([], false)).

(** [line.match(/^\d+\.\s*(.+)/)] *)
Definition match_question (line : jsstring) : option jsstring :=
  match after_number line with
  | Some r => ws_dot_plus r
  | None => None
  end.

Definition parseQuestions (response : jsstring) : list jsstring :=
  let lines := split_on newline response in
  fold_left
    (fun questions line =>
       match match_question line with
       | Some group => questions ++ [trim group]
       | None => questions
       end)
    lines [].

(** [response.match(/\{[\s\S]*\}/)]: from the first opening brace to the
    last closing brace behind it. *)
Definition json_span (response : jsstring) : option jsstring :=
  match drop_while (fun c => negb (N.eqb c left_brace)) response with
  | [] => None
  | _ :: r =>
      match rev (drop_while (fun c => negb (N.eqb c right_brace)) (rev r)) with
      | [] => None
      | body => Some (left_brace :: body)
      end
  end.

Definition string_list (items : list jsstring) : json := JArr (map JStr items).

Definition empty_keywords : KeywordExtractionResult :=
  {| keywords := JArr []; entities := JArr []; kw_topics := JArr [];
     concepts := JArr [] |}.

Definition default_insights : InsightAnalysisResult :=
  {| sentiment := JStr (js "neutral");
     topics := JArr [];
     complexity := JStr (js "medium");
     readabilityScore := JNum (50 # 1);
     keyInsights := JArr [];
     recommendations := JArr [] |}.

Section Host.

Context {E : Type}.
(** [JSON.parse]: a value, or a thrown [SyntaxError]. *)
Context (JSON_parse : jsstring -> result E json).
Context (groq_invoke openai_invoke : prompt -> result E jsstring).
Context (config : Config.AppConfig).

(** The [try] block of [parseKeywordResponse]: [Some r] when it returns [r],
    [None] when control leaves it without a [return]. *)
Definition keyword_json_attempt (response : jsstring)
  : result E (option KeywordExtractionResult) :=
  match json_span response with
  | Some text =>
      parsed <- JSON_parse text ;;
      k <- Json.get_prop parsed (js "keywords") ;;
      e <- Json.get_prop parsed (js "entities") ;;
      t <- Json.get_prop parsed (js "topics") ;;
      c <- Json.get_prop parsed (js "concepts") ;;
      Ok (Some {| keywords := Json.js_or k (JArr []);
                  entities := Json.js_or e (JArr []);
                  kw_topics := Json.js_or t (JArr []);
                  concepts := Json.js_or c (JArr []) |})
  | None => Ok None
  end.

Definition parseKeywordResponse (response : jsstring)
  : result E KeywordExtractionResult :=
  returned <- try_catch (keyword_json_attempt response) (fun _ => Ok None) ;;
  match returned with
  | Some r => Ok r
  | None =>
      Ok {| keywords := string_list (extractListFromText response (js "keywords"));
            entities := string_list (extractListFromText response (js "entities"));
            kw_topics := string_list (extractListFromText response (js "topics"));
            concepts := string_list (extractListFromText response (js "concepts")) |}
  end.

Definition insight_json_attempt (response : jsstring)
  : result E (option InsightAnalysisResult) :=
  match json_span response with
  | Some text =>
      parsed <- JSON_parse text ;;
      s <- Json.get_prop parsed (js "sentiment") ;;
      t <- Json.get_prop parsed (js "topics") ;;
      c <- Json.get_prop parsed (js "complexity") ;;
      r <- Json.get_prop parsed (js "readabilityScore") ;;
      k <- Json.get_prop parsed (js "keyInsights") ;;
      m <- Json.get_prop parsed (js "recommendations") ;;
      Ok (Some {| sentiment := Json.js_or s (JStr (js "neutral"));
                  topics := Json.js_or t (JArr []);
                  complexity := Json.js_or c (JStr (js "medium"));
                  readabilityScore := Json.js_or r (JNum (50 # 1));
                  keyInsights := Json.js_or k (JArr []);
                  recommendations := Json.js_or m (JArr []) |})
  | None => Ok None
  end.

Definition parseInsightResponse (response : jsstring)
  : result E InsightAnalysisResult :=
  returned <- try_catch (insight_json_attempt response) (fun _ => Ok None) ;;
  match returned with
  | Some r => Ok r
  | None => Ok default_insights
  end.

Definition extractKeywords (document : Document)
  : result E KeywordExtractionResult :=
  try_catch
    (llm <- ModelManager.getLLM groq_invoke openai_invoke config ;;
     response <- llm (KeywordPrompt (substring0 (doc_content document) 2000)) ;;
     parseKeywordResponse response)
    (fun _ => Ok empty_keywords).

Definition analyzeInsights (document : Document)
  : result E InsightAnalysisResult :=
  try_catch
    (llm <- ModelManager.getLLM groq_invoke openai_invoke config ;;
     response <- llm (InsightPrompt (substring0 (doc_content document) 2500)) ;;
     parseInsightResponse response)
    (fun _ => Ok default_insights).

Definition generateQuestions (document : Document) : result E (list jsstring) :=
  try_catch
    (llm <- ModelManager.getLLM groq_invoke openai_invoke config ;;
     response <- llm (QuestionsPrompt (substring0 (doc_content document) 1500)) ;;
     Ok (parseQuestions response))
    (fun _ => Ok []).

End Host.

End InsightAnalyzer.

(* ================================================================== *)
(** * analyzers/SummaryAnalyzer.ts *)
(* ================================================================== *)

Inductive summary_style : Type := BulletPoints | Paragraph | Executive.

Record SummaryOptions := {
  opt_maxLength : option Z;
  opt_style : option summary_style;
  opt_focus : option jsstring
}.

Record SummaryResult := {
  summary : jsstring;
  keyPoints : list jsstring;
  summary_wordCount : Z;
  confidence : Z
}.

Module SummaryAnalyzer.

Definition styleInstructions (style : summary_style) : jsstring :=
  match style with
  | BulletPoints => js "Format the summary as clear bullet points"
  | Paragraph => js "Write the summary in well-structured paragraphs"
  | Executive => js "Write in executive summary style with clear headings"
  end.

Definition buildSummaryPrompt (content : jsstring) (maxLength : Z)
    (style : summary_style) (focus : jsstring) : prompt :=
  SummaryPrompt maxLength (styleInstructions style) focus (substring0 content 3000).

Inductive section_name : Type := InSummary | InKeyPoints.

Record parse_state := {
  st_summary : jsstring;
  st_keyPoints : list jsstring;
  st_confidence : Z;
  st_section : section_name
}.

(** [line.match(/(\d+)/)]: the first maximal run of digits. *)
Definition first_digits (line : jsstring) : option jsstring :=
  match take_while is_digit (drop_while (fun c => negb (is_digit c)) line) with
  | [] => None
  | ds => Some ds
  end.

(** [line.replace(/^\d+\.\s*/, '')] *)
Definition strip_number (line : jsstring) : jsstring :=
  match InsightAnalyzer.after_number line with
  | Some r => drop_while is_space r
  | None => line
  end.

(** [line.replace(/^[•-]\s*/, '')] *)
Definition strip_bullet (line : jsstring) : jsstring :=
  match line with
  | c :: r => if (N.eqb c bullet || N.eqb c hyphen)%bool
              then drop_while is_space r else line
  | [] => line
  end.

Definition summary_step (st : parse_state) (line : jsstring) : parse_state :=
  let lower := toLowerCase line in
  if (includes lower (js "key points") || includes lower (js "main points"))%bool
  then {| st_summary := st_summary st; st_keyPoints := st_keyPoints st;
          st_confidence := st_confidence st; st_section := InKeyPoints |}
  else if includes lower (js "confidence")
  then match first_digits line with
       | Some ds =>
           {| st_summary := st_summary st; st_keyPoints := st_keyPoints st;
              st_confidence := parseInt_digits ds; st_section := st_section st |}
       | None => st
       end
  else match st_section st with
       | InSummary =>
           {| st_summary := st_summary st ++ line ++ [space];
              st_keyPoints := st_keyPoints st;
              st_confidence := st_confidence st; st_section := InSummary |}
       | InKeyPoints =>
           if (InsightAnalyzer.is_numbered line || startsWith line [bullet]
               || startsWith line [hyphen])%bool
           then {| st_summary := st_summary st;
                   st_keyPoints := st_keyPoints st ++ [strip_bullet (strip_number line)];
                   st_confidence := st_confidence st; st_section := InKeyPoints |}
           else st
       end.

Definition summary_lines (response : jsstring) : list jsstring :=
  filter (fun line => Config.truthy_string (trim line)) (split_on newline response).

Definition summary_loop (response : jsstring) : parse_state :=
  fold_left summary_step (summary_lines response)
    {| st_summary := []; st_keyPoints := []; st_confidence := 8;
       st_section := InSummary |}.

Definition parseSummaryResponse (response : jsstring) : SummaryResult :=
  let st := summary_loop response in
  {| summary := trim (st_summary st);
     keyPoints := st_keyPoints st;
     summary_wordCount := Z.of_nat (length (split_on space (st_summary st)));
     confidence := Z.min 10 (Z.max 1 (st_confidence st)) |}.

Section Host.

Context {E : Type}.
Context (describe : E -> jsstring).
Context (groq_invoke openai_invoke : prompt -> result E jsstring).
Context (config : Config.AppConfig).

(** The text that a template literal makes of a caught exception. *)
Definition error_text (t : thrown E) : jsstring :=
  match t with
  | Raised e => describe e
  | NewError [] => js "Error"
  | NewError message => js "Error: " ++ message
  | TypeError => js "TypeError: Cannot read properties of null"
  end.

Definition option_default {A} (o : option A) (d : A) : A :=
  match o with Some a => a | None => d end.

Definition summarizeDocument (document : Document) (options : SummaryOptions)
  : result E SummaryResult :=
  let maxLength := option_default (opt_maxLength options) 500 in
  let style := option_default (opt_style options) Paragraph in
  let focus := option_default (opt_focus options)
                 (js "main concepts and important details") in
  let prompt := buildSummaryPrompt (doc_content document) maxLength style focus in
  try_catch
    (llm <- ModelManager.getLLM groq_invoke openai_invoke config ;;
     response <- llm prompt ;;
     Ok (parseSummaryResponse response))
    (fun error => Throw (NewError (js "Failed to generate summary: " ++ error_text error))).

(** [chunks.map(chunk => chunk.content).join('\n\n')] *)
Definition join_paragraphs (parts : list jsstring) : jsstring :=
  match parts with
  | [] => []
  | p :: rest => p ++ flat_map (fun x => newline :: newline :: x) rest
  end.

Definition summarizeChunks (chunks : list DocumentChunk) (options : SummaryOptions)
  : result E SummaryResult :=
  let combinedContent := join_paragraphs (map content chunks) in
  let document :=
    {| doc_id := js "temp";
       doc_content := combinedContent;
       doc_metadata := {| filename := js "chunks"; fileType := js ".txt";
                          size := Z.of_nat (length combinedContent) |} |} in
  summarizeDocument document options.

Definition generateAbstract (document : Document) : result E jsstring :=
  try_catch
    (llm <- ModelManager.getLLM groq_invoke openai_invoke config ;;
     response <- llm (AbstractPrompt (substring0 (doc_content document) 2000)) ;;
     Ok (trim response))
    (fun error => Throw (NewError (js "Failed to generate abstract: " ++ error_text error))).

End Host.

End SummaryAnalyzer.

(* ================================================================== *)
(** * core/types.ts: DocumentStore *)
(* ================================================================== *)

Module DocumentStore.

Section StringMap.

(** A JavaScript [Map] with string keys: its entries in insertion order.
    [set] on a key that is present replaces the value where it stands. *)
Context {V : Type}.

Fixpoint map_get (key : jsstring) (m : list (jsstring * V)) : option V :=
  match m with
  | [] => None
  | (k, v) :: rest => if jsstring_eqb k key then Some v else map_get key rest
  end.

Fixpoint map_set (key : jsstring) (v : V) (m : list (jsstring * V))
  : list (jsstring * V) :=
  match m with
  | [] => [(key, v)]
  | (k, x) :: rest =>
      if jsstring_eqb k key then (k, v) :: rest
      else (k, x) :: map_set key v rest
  end.

Definition map_values (m : list (jsstring * V)) : list V := map snd m.

End StringMap.

Record store := {
  store_documents : list (jsstring * Document);
  store_chunks : list (jsstring * list DocumentChunk)
}.

Record stats := {
  totalDocuments : Z;
  totalChunks : Z;
  totalSize : Z;
  averageChunksPerDocument : Z
}.

(** [new DocumentStore()] *)
Definition empty : store := {| store_documents := []; store_chunks := [] |}.

Definition addDocument (s : store) (document : Document) : store :=
  {| store_documents := map_set (doc_id document) document (store_documents s);
     store_chunks := store_chunks s |}.

Definition getDocument (s : store) (id : jsstring) : option Document :=
  map_get id (store_documents s).

Definition getAllDocuments (s : store) : list Document :=
  map_values (store_documents s).

Definition addChunks (s : store) (documentId : jsstring)
    (chunks : list DocumentChunk) : store :=
  {| store_documents := store_documents s;
     store_chunks := map_set documentId chunks (store_chunks s) |}.

(** [this.chunks.get(documentId) || []]: an array is never falsy. *)
Definition getChunks (s : store) (documentId : jsstring) : list DocumentChunk :=
  match map_get documentId (store_chunks s) with
  | Some chunks => chunks
  | None => []
  end.

Definition getAllChunks (s : store) : list DocumentChunk :=
  concat (map_values (store_chunks s)).

Definition searchDocuments (s : store) (query : jsstring) : list Document :=
  let lowerQuery := toLowerCase query in
  filter
    (fun doc =>
       (includes (toLowerCase (doc_content doc)) lowerQuery
        || includes (toLowerCase (filename (doc_metadata doc))) lowerQuery)%bool)
    (getAllDocuments s).

(** [Math.round (a / b)] for counts [a >= 0] and [b > 0]: halves go up. *)
Definition round_div (a b : Z) : Z := (2 * a + b) / (2 * b).

Definition getStats (s : store) : stats :=
  let totalDocuments := Z.of_nat (length (store_documents s)) in
  let totalChunks := Z.of_nat (length (getAllChunks s)) in
  let totalSize :=
    fold_left (fun sum doc => sum + size (doc_metadata doc))
      (map_values (store_documents s)) 0 in
  {| totalDocuments := totalDocuments;
     totalChunks := totalChunks;
     totalSize := totalSize;
     averageChunksPerDocument :=
       if 0 <? totalDocuments then round_div totalChunks totalDocuments else 0 |}.

Definition clear (s : store) : store := empty.

End DocumentStore.

(* ================================================================== *)
(** * processors/index.ts: ProcessorFactory, and BaseProcessor.supports *)
(* ================================================================== *)

Module ProcessorFactory.

(** What the factory reads of a processor. *)
Record processor := {
  processor_name : jsstring;
  supportedExtensions : list jsstring
}.

Definition TextProcessor : processor :=
  {| processor_name := js "TextProcessor";
     supportedExtensions := map js [".txt"; ".md"; ".markdown"; ".text"]%string |}.

Definition PDFProcessor : processor :=
  {| processor_name := js "PDFProcessor";
     supportedExtensions := map js [".pdf"]%string |}.

Definition processors : list processor := [TextProcessor; PDFProcessor].

Section Path.

(** [path.extname] of the runtime. *)
Context (extname : jsstring -> jsstring).

Definition supports (p : processor) (filePath : jsstring) : bool :=
  let ext := toLowerCase (extname filePath) in
  existsb (jsstring_eqb ext) (supportedExtensions p).

(** [registry.find(processor => processor.supports(filePath)) || null]; the
    registry of the source is [processors]. *)
Definition getProcessor (registry : list processor) (filePath : jsstring)
  : option processor :=
  find (fun p => supports p filePath) registry.

End Path.

(** [extensions.add(ext)] on a [Set]: a new element goes to the end. *)
Definition set_add (ext : jsstring) (extensions : list jsstring) : list jsstring :=
  if existsb (jsstring_eqb ext) extensions then extensions else extensions ++ [ext].

Definition getSupportedExtensions (registry : list processor) : list jsstring :=
  fold_left
    (fun extensions p =>
       fold_left (fun acc ext => set_add ext acc) (supportedExtensions p) extensions)
    registry [].

End ProcessorFactory.

(* ================================================================== *)
(** * Definitions used to state the properties *)
(* ================================================================== *)

(** A chunk without its identifier. *)
Definition anonymous (c : DocumentChunk) : DocumentChunk :=
  {| id := [];
     documentId := documentId c;
     content := content c;
     index := index c;
     metadata := metadata c |}.

(** The first [n] identifiers that a generator hands out from state [g]. *)
Fixpoint draws {RNG : Type} (uuidv4 : RNG -> jsstring * RNG) (n : nat) (g : RNG)
  : list jsstring :=
  match n with
  | O => []
  | S k => fst (uuidv4 g) :: draws uuidv4 k (snd (uuidv4 g))
  end.

(** A generator for the examples: it numbers its identifiers, so that two
    draws differ as two draws of [uuidv4] do. *)
Definition uuid_counter (n : nat) : jsstring * nat :=
  (js "uuid-" ++ [(48 + N.of_nat n)%N], S n).

Definition sample_document : Document :=
  {| doc_id := js "doc";
     doc_content := js "abc";
     doc_metadata := {| filename := js "a.txt"; fileType := js ".txt"; size := 3 |} |}.

Definition sample_config (size overlap : Z) : Config.AppConfig :=
  {| Config.openai_apiKey := [];
     Config.groq_apiKey := js "gsk";
     Config.huggingface_apiKey := [];
     Config.chunkSize := size;
     Config.chunkOverlap := overlap;
     Config.maxResults := 5 |}.

(** The same keys with another window and overlap. *)
Definition with_window (config : Config.AppConfig) (size overlap : Z)
  : Config.AppConfig :=
  {| Config.openai_apiKey := Config.openai_apiKey config;
     Config.groq_apiKey := Config.groq_apiKey config;
     Config.huggingface_apiKey := Config.huggingface_apiKey config;
     Config.chunkSize := size;
     Config.chunkOverlap := overlap;
     Config.maxResults := Config.maxResults config |}.

Definition not_space (c : N) : bool := negb (is_space c).

(** The number of words of a text: the positions where a code unit that is
    not white space stands at the start or behind white space. *)
Fixpoint count_word_starts (after_space : bool) (s : jsstring) : nat :=
  match s with
  | [] => O
  | c :: r =>
      if is_space c then count_word_starts true r
      else ((if after_space then 1 else 0) + count_word_starts false r)%nat
  end.

Definition spec_word_count (s : jsstring) : nat := count_word_starts true s.

(** The confidence that a line of a summary response states, if any: the
    line is not a key-points heading, mentions the word and carries digits. *)
Definition stated_confidence (line : jsstring) : option Z :=
  let lower := toLowerCase line in
  if (includes lower (js "key points") || includes lower (js "main points"))%bool
  then None
  else if includes lower (js "confidence")
  then option_map parseInt_digits (SummaryAnalyzer.first_digits line)
  else None.

(** The score of a chunk for a query, on the words of [split(' ')]. *)
Definition literal_score (query : jsstring) (chunk : DocumentChunk) : nat :=
  list_sum
    (map (fun word =>
            InsightAnalyzer.literal_match_count word (toLowerCase (content chunk)))
         (split_on space (toLowerCase query))).

(** A query word that the retrieval treats as plain text: not empty, and
    free of the characters special to regular expressions. *)
Definition is_plain_word (word : jsstring) : bool :=
  (BaseProcessor.nonempty word && InsightAnalyzer.is_literal_pattern word)%bool.

(** The score of a chunk on plain words: the matches of each word, found
    left to right without overlap. *)
Definition plain_score (query : jsstring) (chunk : DocumentChunk) : nat :=
  list_sum
    (map (fun word =>
            InsightAnalyzer.count_from O word (toLowerCase (content chunk)))
         (split_on space (toLowerCase query))).

(** Retrieval in the words of the specification: the tokens of the query are
    its non-empty pieces between white space, and a token is counted at
    every position of the chunk where it stands. *)
Definition whitespace_tokens (query : jsstring) : list jsstring :=
  filter BaseProcessor.nonempty (split_ws (toLowerCase query)).

Fixpoint occurrences (token s : jsstring) : nat :=
  match s with
  | [] => O
  | _ :: r => ((if startsWith s token then 1 else 0) + occurrences token r)%nat
  end.

Definition token_score (query : jsstring) (chunk : DocumentChunk) : nat :=
  list_sum
    (map (fun token => occurrences token (toLowerCase (content chunk)))
         (whitespace_tokens query)).


Definition text_chunk (i : Z) (text : string) : DocumentChunk :=
  {| id := js "chunk";
     documentId := js "doc";
     content := js text;
     index := i;
     metadata := {| startChar := 0; endChar := Z.of_nat (length (js text)) |} |}.

Definition sample_chunks : list DocumentChunk :=
  [text_chunk 0 "the cat sat"; text_chunk 1 "the dog ran"; text_chunk 2 "birds fly"].


(** A client for the examples: every invocation fails. *)
Definition failing_client (_ : prompt) : result unit jsstring := Throw (Raised tt).

Definition describe_failure (_ : unit) : jsstring := js "Error: rate limit".

Definition default_options : SummaryOptions :=
  {| opt_maxLength := None; opt_style := None; opt_focus := None |}.

(** A stand-in for [JSON.parse] in the examples: it knows the empty object
    and rejects every other text. *)
Definition parse_empty_object (text : jsstring) : result unit json :=
  if jsstring_eqb text (js "{}") then Ok (JObj [])
  else Throw (Raised tt).

Definition keywords_response : jsstring :=
  join_lines [js "Keywords: "; js "1. foo"; js "2. bar"].

(** The comparator [(a, b) => key b - key a], and the order it sorts into. *)
Definition desc {A : Type} (key : A -> nat) (a b : A) : Z :=
  Z.of_nat (key b) - Z.of_nat (key a).


(** The start offset that follows a run of [n] windows begun at [start]. *)
Fixpoint next_start (len W O : Z) (start : Z) (n : nat) : Z :=
  match n with
  | O => start
  | S k => next_start len W O (Z.min (start + W) len - O) k
  end.

(** A sequence of chunks laid out window after window from offset [start]
    and index [idx]: each chunk starts below the end of the text, ends at
    the window's end or at the end of the text, holds that slice, and the
    next one starts [O] before its end. *)
Fixpoint chained (document : Document) (text : jsstring) (W O : Z)
    (start idx : Z) (cs : list DocumentChunk) : Prop :=
  match cs with
  | [] => True
  | c :: rest =>
      index c = idx
      /\ documentId c = doc_id document
      /\ startChar (metadata c) = start
      /\ start < Z.of_nat (length text)
      /\ endChar (metadata c) = Z.min (start + W) (Z.of_nat (length text))
      /\ content c = slice text start (Z.min (start + W) (Z.of_nat (length text)))
      /\ chained document text W O
           (Z.min (start + W) (Z.of_nat (length text)) - O) (idx + 1) rest
  end.

Definition not_newline (c : N) : bool := negb (N.eqb c newline).

Definition on_line (c : N) : bool := negb (is_line_terminator c).

(** A text that stands on one line and has no white space at either end:
    what [(.+)] captures whole and [trim] leaves alone. *)
Definition clean_line (q : jsstring) : bool :=
  match q, rev q with
  | c :: _, x :: _ =>
      (negb (is_space c) && negb (is_space x) && forallb on_line q)%bool
  | _, _ => false
  end.

(** A list item as a model writes it: a hyphen, a space, the text. *)
Definition bullet_line (q : jsstring) : jsstring := js "- " ++ q.

(** A numbered line: the digits, a full stop, a space, the text. *)
Definition numbered_line (item : jsstring * jsstring) : jsstring :=
  fst item ++ js ". " ++ snd item.

(** The stores that a program can build: from the empty store, by the
    operations of [DocumentStore]. *)
Inductive built : DocumentStore.store -> Prop :=
| built_empty : built DocumentStore.empty
| built_addDocument (s : DocumentStore.store) (d : Document) :
    built s -> built (DocumentStore.addDocument s d)
| built_addChunks (s : DocumentStore.store) (documentId : jsstring)
    (chunks : list DocumentChunk) :
    built s -> built (DocumentStore.addChunks s documentId chunks)
| built_clear (s : DocumentStore.store) :
    built s -> built (DocumentStore.clear s).

(** What every pass of the loop of [createChunks] keeps. *)
Definition layout_invariant {RNG : Type} (document : Document) (text : jsstring)
    (W O : Z) (st : @BaseProcessor.loop_state RNG) : Prop :=
  chained document text W O 0 0 (BaseProcessor.chunks st)
  /\ BaseProcessor.startIndex st
     = next_start (Z.of_nat (length text)) W O 0 (length (BaseProcessor.chunks st))
  /\ BaseProcessor.chunkIndex st = Z.of_nat (length (BaseProcessor.chunks st)).

(** What every pass keeps when there is no overlap. *)
Definition partition_invariant {RNG : Type} (text : jsstring) (W : Z)
    (st : @BaseProcessor.loop_state RNG) : Prop :=
  concat (map content (BaseProcessor.chunks st))
  = firstn (Z.to_nat (BaseProcessor.startIndex st)) text
  /\ BaseProcessor.startIndex st
     = Z.min (Z.of_nat (length (BaseProcessor.chunks st)) * W) (Z.of_nat (length text))
  /\ (length (BaseProcessor.chunks st) = 0%nat
      \/ (Z.of_nat (length (BaseProcessor.chunks st)) - 1) * W
         < Z.of_nat (length text)).

Definition not_left_brace (c : N) : bool := negb (N.eqb c left_brace).
Definition not_right_brace (c : N) : bool := negb (N.eqb c right_brace).

Definition keyword_fields_truthy (r : KeywordExtractionResult) : Prop :=
  Json.truthy (keywords r) = true /\ Json.truthy (entities r) = true
  /\ Json.truthy (kw_topics r) = true /\ Json.truthy (concepts r) = true.

Definition insight_fields_truthy (r : InsightAnalysisResult) : Prop :=
  Json.truthy (sentiment r) = true /\ Json.truthy (topics r) = true
  /\ Json.truthy (complexity r) = true /\ Json.truthy (readabilityScore r) = true
  /\ Json.truthy (keyInsights r) = true /\ Json.truthy (recommendations r) = true.

(** A line that opens the key points of a summary response. *)
Definition is_heading (line : jsstring) : bool :=
  (includes (toLowerCase line) (js "key points")
   || includes (toLowerCase line) (js "main points"))%bool.

(** Entries of a map of documents, each under the identifier of its
    document and no identifier twice. *)
Definition filed_by_id (m : list (jsstring * Document)) : Prop :=
  NoDup (map fst m) /\ Forall (fun entry => fst entry = doc_id (snd entry)) m.

(** The answer of the language model to a prompt, through [getLLM]. *)
Definition ask {E : Type} (groq_invoke openai_invoke : prompt -> result E jsstring)
    (config : Config.AppConfig) (p : prompt) : result E jsstring :=
  llm <- ModelManager.getLLM groq_invoke openai_invoke config ;; llm p.


(** Chunks whose contents are ASCII strings. *)
Definition ascii_contents (chunks : list DocumentChunk) : bool :=
  forallb (fun c => is_ascii (content c)) chunks.

(** A client for the examples: it answers with the excerpt of the prompt. *)
Definition echo_client (p : prompt) : result unit jsstring :=
  match p with
  | KeywordPrompt excerpt | InsightPrompt excerpt | QuestionsPrompt excerpt
  | AbstractPrompt excerpt => Ok excerpt
  | SummaryPrompt _ _ _ excerpt => Ok excerpt
  end.

(** [word] occurs in [text] as a run of consecutive code units. *)
Definition occurs_in (word text : jsstring) : Prop :=
  exists before after : jsstring, text = before ++ word ++ after.

(** A document for the examples: a question, a line of 3000 times the
    letter a, then [tail]. *)
Definition long_document (tail : string) : Document :=
  {| doc_id := js tail;
     doc_content := js "1. Why?" ++ newline :: repeat 97%N 3000 ++ js tail;
     doc_metadata := {| filename := js tail; fileType := js ".txt";
                        size := Z.of_nat (3008 + length (js tail)) |} |}.

(** The state of the loop of [createChunks] after [n] passes. *)
Definition after_passes {RNG : Type} (uuidv4 : RNG -> jsstring * RNG)
    (document : Document) (text : jsstring) (W O : Z) (g : RNG) (n : nat)
  : @BaseProcessor.loop_state RNG :=
  Nat.iter n (BaseProcessor.loop_body uuidv4 document text W O)
    (BaseProcessor.loop_init g).

(** A line of a summary response that cannot set the confidence: it has no
    digits, or it is an ASCII line that states none. *)
Definition states_no_confidence (line : jsstring) : Prop :=
  SummaryAnalyzer.first_digits line = None
  \/ (is_ascii line = true /\ stated_confidence line = None).

(* ================================================================== *)
(** * Properties of the chunker *)
(* ================================================================== *)

Section ChunkerFacts.

Import BaseProcessor.

Context {RNG : Type} (uuidv4 : RNG -> jsstring * RNG).

Lemma loop_body_startIndex document content chunkSize overlap (st : loop_state) :
  startIndex (loop_body uuidv4 document content chunkSize overlap st)
  = Z.min (startIndex st + chunkSize) (Z.of_nat (length content)) - overlap.
Proof.
  unfold loop_body. destruct (uuidv4 (rng st)); reflexivity.
Qed.

Lemma loop_body_chunkIndex document content chunkSize overlap (st : loop_state) :
  chunkIndex (loop_body uuidv4 document content chunkSize overlap st)
  = chunkIndex st + 1.
Proof.
  unfold loop_body. destruct (uuidv4 (rng st)); reflexivity.
Qed.

Lemma loop_body_chunks document content chunkSize overlap (st : loop_state) :
  chunks (loop_body uuidv4 document content chunkSize overlap st)
  = chunks st ++
    [ {| id := fst (uuidv4 (rng st));
         documentId := doc_id document;
         content := slice content (startIndex st)
                      (Z.min (startIndex st + chunkSize) (Z.of_nat (length content)));
         index := chunkIndex st;
         metadata :=
           {| startChar := startIndex st;
              endChar := Z.min (startIndex st + chunkSize) (Z.of_nat (length content)) |} |} ].
Proof.
  unfold loop_body. destruct (uuidv4 (rng st)); reflexivity.
Qed.

Lemma loop_body_rng document content chunkSize overlap (st : loop_state) :
  rng (loop_body uuidv4 document content chunkSize overlap st)
  = snd (uuidv4 (rng st)).
Proof.
  unfold loop_body. destruct (uuidv4 (rng st)); reflexivity.
Qed.

(** With a positive overlap, or an overlap that is not below the window, the
    start offset never reaches the end of the content again once it is below
    it: the loop condition holds for ever. *)
Lemma while_loop_stuck document content chunkSize overlap :
  0 < overlap \/ chunkSize <= overlap ->
  forall fuel (st : loop_state),
    startIndex st < Z.of_nat (length content) ->
    while_loop uuidv4 fuel document content chunkSize overlap st = None.
Proof.
  intros Hov. induction fuel as [|fuel IH]; intros st Hlt; simpl.
  - reflexivity.
  - unfold loop_cond. apply Z.ltb_lt in Hlt as Hb. rewrite Hb.
    apply IH. rewrite loop_body_startIndex. lia.
Qed.

Lemma createChunks_stuck fuel document content chunkSize overlap g :
  content <> [] ->
  0 < overlap \/ chunkSize <= overlap ->
  createChunks uuidv4 fuel document content chunkSize overlap g = None.
Proof.
  intros Hne Hov. unfold createChunks.
  rewrite (while_loop_stuck document content chunkSize overlap Hov).
  - reflexivity.
  - destruct content; [congruence | simpl; lia].
Qed.

(** Without overlap every pass moves the start offset forward by the window,
    so the loop leaves after at most [length content] passes. *)
Lemma while_loop_exits document content chunkSize overlap :
  0 < chunkSize -> overlap <= 0 ->
  forall fuel (st : loop_state),
    (Z.to_nat (Z.of_nat (length content) - startIndex st) < fuel)%nat ->
    exists st', while_loop uuidv4 fuel document content chunkSize overlap st = Some st'
                /\ Z.of_nat (length content) <= startIndex st'.
Proof.
  intros HW HO. induction fuel as [|fuel IH]; intros st Hfuel; [lia|].
  simpl. unfold loop_cond.
  destruct (Z.ltb_spec (startIndex st) (Z.of_nat (length content))) as [Hlt|Hge].
  - apply IH. rewrite loop_body_startIndex. lia.
  - exists st. split; [reflexivity | lia].
Qed.

Lemma createChunks_returns_without_overlap document content chunkSize overlap g :
  0 < chunkSize -> overlap <= 0 ->
  exists cs g',
    createChunks uuidv4 (S (length content)) document content chunkSize overlap g
    = Some (cs, g').
Proof.
  intros HW HO. unfold createChunks.
  destruct (while_loop_exits document content chunkSize overlap HW HO
              (S (length content)) (loop_init g)) as [st' [Hrun _]].
  - simpl. lia.
  - rewrite Hrun. eauto.
Qed.

Lemma slice_whole (s : jsstring) : slice s 0 (Z.of_nat (length s)) = s.
Proof.
  unfold slice, rel_index. simpl.
  destruct (Z.ltb_spec (Z.of_nat (length s)) 0) as [H|H]; [lia|].
  rewrite Z.min_id. replace (Z.min 0 (Z.of_nat (length s))) with 0 by lia.
  rewrite Z.sub_0_r, Nat2Z.id. simpl. apply firstn_all.
Qed.

(** A text that fits the window, chunked without overlap, is one chunk. *)
Lemma createChunks_short_text_without_overlap document T chunkSize g :
  T <> [] -> Z.of_nat (length T) <= chunkSize ->
  createChunks uuidv4 2 document T chunkSize 0 g
  = Some ([ {| id := fst (uuidv4 g);
               documentId := doc_id document;
               content := T;
               index := 0;
               metadata := {| startChar := 0; endChar := Z.of_nat (length T) |} |} ],
          snd (uuidv4 g)).
Proof.
  intros Hne Hfit. unfold createChunks. simpl. unfold loop_cond at 1. simpl.
  assert (Hpos : 0 < Z.of_nat (length T)) by (destruct T; [congruence | simpl; lia]).
  apply Z.ltb_lt in Hpos as Hb. rewrite Hb.
  unfold loop_cond. rewrite loop_body_startIndex. simpl.
  replace (Z.min chunkSize (Z.of_nat (length T))) with (Z.of_nat (length T)) by lia.
  rewrite Z.sub_0_r, Z.ltb_irrefl.
  rewrite loop_body_chunks, loop_body_rng. simpl.
  replace (Z.min chunkSize (Z.of_nat (length T))) with (Z.of_nat (length T)) by lia.
  rewrite slice_whole. reflexivity.
Qed.

End ChunkerFacts.

Section ChunkerClaims.

Import BaseProcessor.

(** C1.  Termination of [createChunks] fails on the code: content ["abc"],
    window 2 and overlap 1 satisfy [W > 0] and [0 <= O < W], yet no amount of
    fuel lets the call return.  After the chunk that reaches the end of the
    content the start offset is set to [length - overlap] on every pass and
    never reaches [length]: the offsets before passes 1 to 5 are
    0, 1, 2, 2, 2. *)
Theorem createChunks_overlap_never_returns :
  forall (RNG : Type) (uuidv4 : RNG -> jsstring * RNG) fuel document g,
    createChunks uuidv4 fuel document (js "abc") 2 1 g = None
    /\ map (fun n => startIndex
                       (Nat.iter n (loop_body uuidv4 document (js "abc") 2 1)
                          (loop_init g)))
         [0; 1; 2; 3; 4]%nat
       = [0; 1; 2; 2; 2].
Proof.
  intros. split.
  - apply createChunks_stuck.
    + discriminate.
    + left; lia.
  - simpl. rewrite !loop_body_startIndex. reflexivity.
Qed.

(** C2.  The single chunk of a short text is not returned by the code when
    the overlap is positive: the text ["abc"] fits a window of 5, and with
    overlap 1 the first pass leaves the start offset 2, below the length, so
    that the loop goes on and the call never returns. *)
Theorem createChunks_short_text_overlap_never_returns :
  forall (RNG : Type) (uuidv4 : RNG -> jsstring * RNG) fuel document g,
    createChunks uuidv4 fuel document (js "abc") 5 1 g = None
    /\ startIndex (loop_body uuidv4 document (js "abc") 5 1 (loop_init g)) = 2
    /\ loop_cond (js "abc") (loop_body uuidv4 document (js "abc") 5 1 (loop_init g))
       = true.
Proof.
  intros. split; [|split].
  - apply createChunks_stuck; [discriminate | left; lia].
  - rewrite loop_body_startIndex. reflexivity.
  - unfold loop_cond. rewrite loop_body_startIndex. reflexivity.
Qed.

(** C6, counterexample.  A configuration whose overlap (200) exceeds its
    window (100) passes [validateConfig], and [createChunks] called with
    window 1 and overlap 1 on ["ab"] enters its loop and produces a chunk:
    nothing is rejected. *)
Lemma overlap_not_below_window_is_accepted :
  Config.validateConfig (sample_config 100 200) = true
  /\ loop_cond (js "ab") (loop_init 0%nat) = true
  /\ chunks (loop_body uuid_counter sample_document (js "ab") 1 1 (loop_init 0%nat))
     = [ {| id := js "uuid-0"; documentId := js "doc"; content := js "a";
            index := 0; metadata := {| startChar := 0; endChar := 1 |} |} ].
Proof.
  repeat split.
Qed.

(** C6, amended.  Neither [validateConfig] nor [createChunks] looks at the
    relation between window and overlap.  With [O >= W]: the verdict of
    [validateConfig] is that of the same keys with any other window; on empty
    content [createChunks] returns the empty list; on non-empty content it
    enters the loop and its first pass produces chunk 0, which spans
    [0, min (W, length))], and leaves a start offset that is not past 0. *)
Theorem createChunks_validates_nothing :
  forall (RNG : Type) (uuidv4 : RNG -> jsstring * RNG) document content W O g,
    W <= O ->
    (forall config,
        Config.validateConfig (with_window config W O) = Config.validateConfig config)
    /\ (content = [] ->
        createChunks uuidv4 1 document content W O g = Some ([], g))
    /\ (content <> [] ->
        loop_cond content (loop_init g) = true
        /\ chunks (loop_body uuidv4 document content W O (loop_init g))
           = [ {| id := fst (uuidv4 g);
                  documentId := doc_id document;
                  content := slice content 0 (Z.min W (Z.of_nat (length content)));
                  index := 0;
                  metadata :=
                    {| startChar := 0;
                       endChar := Z.min W (Z.of_nat (length content)) |} |} ]
        /\ startIndex (loop_body uuidv4 document content W O (loop_init g)) <= 0).
Proof.
  intros RNG uuidv4 document content W O g HWO. split; [|split].
  - intros config. reflexivity.
  - intros ->. reflexivity.
  - intros Hne. split; [|split].
    + unfold loop_cond. simpl. apply Z.ltb_lt.
      destruct content; [congruence | simpl; lia].
    + rewrite loop_body_chunks. reflexivity.
    + rewrite loop_body_startIndex. simpl. lia.
Qed.

Lemma createChunks_validates_nothing_witness :
  (1 <= 1)
  /\ loop_cond (js "ab") (loop_init 0%nat) = true.
Proof.
  split; [lia|].
  apply (createChunks_validates_nothing nat uuid_counter sample_document
           (js "ab") 1 1 0%nat); [lia | discriminate].
Defined.

(** Two runs of the loop on the same input, each with a generator of its
    own, stay in step: same offsets, same indices, same chunks but for the
    identifiers. *)
Lemma while_loop_agree {R1 R2 : Type}
    (u1 : R1 -> jsstring * R1) (u2 : R2 -> jsstring * R2)
    document content W O :
  forall fuel (s1 : @loop_state R1) (s2 : @loop_state R2),
    map anonymous (chunks s1) = map anonymous (chunks s2) ->
    startIndex s1 = startIndex s2 ->
    chunkIndex s1 = chunkIndex s2 ->
    option_map (fun st => map anonymous (chunks st))
      (while_loop u1 fuel document content W O s1)
    = option_map (fun st => map anonymous (chunks st))
        (while_loop u2 fuel document content W O s2).
Proof.
  induction fuel as [|fuel IH]; intros s1 s2 Hc Hs Hi; simpl.
  - reflexivity.
  - unfold loop_cond. rewrite Hs.
    destruct (startIndex s2 <? Z.of_nat (length content)).
    + apply IH.
      * rewrite !loop_body_chunks, !map_app, Hc, Hs, Hi. reflexivity.
      * rewrite !loop_body_startIndex, Hs. reflexivity.
      * rewrite !loop_body_chunkIndex, Hi. reflexivity.
    + simpl. f_equal. exact Hc.
Qed.

(** The identifiers of the chunks are the draws of the generator, in order. *)
Lemma while_loop_ids {RNG : Type} (uuidv4 : RNG -> jsstring * RNG)
    document text W O (g0 : RNG) :
  forall fuel (st st' : loop_state),
    (forall k, draws uuidv4 (length (chunks st) + k) g0
               = map id (chunks st) ++ draws uuidv4 k (rng st)) ->
    while_loop uuidv4 fuel document text W O st = Some st' ->
    map id (chunks st') = draws uuidv4 (length (chunks st')) g0.
Proof.
  induction fuel as [|fuel IH]; intros st st' Hk Hrun; simpl in Hrun.
  - discriminate.
  - destruct (loop_cond text st).
    + apply IH in Hrun; [exact Hrun|].
      intros k. rewrite loop_body_chunks, loop_body_rng, length_app, map_app.
      simpl. rewrite <- Nat.add_assoc. rewrite (Hk (1 + k)%nat). simpl.
      rewrite <- app_assoc. reflexivity.
    + injection Hrun as <-. specialize (Hk 0%nat).
      rewrite Nat.add_0_r in Hk. simpl in Hk. rewrite app_nil_r in Hk.
      symmetry. exact Hk.
Qed.

(** C7, counterexample.  Two successive calls on the same text, window and
    overlap, the second drawing from the generator as the first left it,
    return chunks with different identifiers. *)
Lemma createChunks_ids_differ :
  ~ (forall fuel document content W O (g g1 g2 : nat) cs1 cs2,
        createChunks uuid_counter fuel document content W O g = Some (cs1, g1) ->
        createChunks uuid_counter fuel document content W O g1 = Some (cs2, g2) ->
        cs1 = cs2).
Proof.
  intros H.
  specialize (H 2%nat sample_document (js "ab") 5 0 0%nat 1%nat 2%nat _ _
                (eq_refl _) (eq_refl _)).
  discriminate H.
Qed.

(** C7, amended.  Two calls of [createChunks] on the same text, window and
    overlap behave alike whatever the generators give: both are still in the
    loop after the same number of passes or both return, and then the chunk
    sequences have the same contents, indices, offsets and document
    identifiers.  The chunk identifiers are the successive draws of the
    call's generator. *)
Theorem createChunks_deterministic_up_to_ids :
  forall (R1 R2 : Type) (u1 : R1 -> jsstring * R1) (u2 : R2 -> jsstring * R2)
         fuel document content W O g1 g2,
    option_map (fun r => map anonymous (fst r))
      (createChunks u1 fuel document content W O g1)
    = option_map (fun r => map anonymous (fst r))
        (createChunks u2 fuel document content W O g2)
    /\ (forall cs g',
          createChunks u1 fuel document content W O g1 = Some (cs, g') ->
          map id cs = draws u1 (length cs) g1).
Proof.
  intros R1 R2 u1 u2 fuel document text W O g1 g2. split.
  - unfold createChunks.
    pose proof (while_loop_agree u1 u2 document text W O fuel
                  (loop_init g1) (loop_init g2) eq_refl eq_refl eq_refl) as H.
    destruct (while_loop u1 fuel document text W O (loop_init g1));
      destruct (while_loop u2 fuel document text W O (loop_init g2));
      simpl in *; congruence.
  - intros cs g' Hrun. unfold createChunks in Hrun.
    destruct (while_loop u1 fuel document text W O (loop_init g1)) as [st|] eqn:Hw;
      [|discriminate].
    injection Hrun as <- <-.
    apply (while_loop_ids u1 document text W O g1 fuel (loop_init g1) st);
      [reflexivity | exact Hw].
Qed.

Lemma createChunks_deterministic_up_to_ids_witness :
  map id [ {| id := js "uuid-0"; documentId := js "doc"; content := js "ab";
              index := 0; metadata := {| startChar := 0; endChar := 2 |} |} ]
  = draws uuid_counter 1 0%nat.
Proof.
  apply (proj2 (createChunks_deterministic_up_to_ids nat nat uuid_counter uuid_counter
                  2%nat sample_document (js "ab") 5 0 0%nat 0%nat)
           _ 1%nat eq_refl).
Defined.

End ChunkerClaims.

(* ================================================================== *)
(** * Properties of the local insights *)
(* ================================================================== *)

Section InsightFacts.

Import BaseProcessor.

Lemma filter_nonempty_concat (l : list jsstring) :
  concat (filter nonempty l) = concat l.
Proof.
  induction l as [|w l IH]; simpl; [reflexivity|].
  destruct w; simpl; [exact IH | rewrite IH; reflexivity].
Qed.

Lemma nonempty_snoc (cur : jsstring) (c : N) : nonempty (cur ++ [c]) = true.
Proof. destruct cur; reflexivity. Qed.

(** Counting: the pieces of [split] that survive the filter are the word
    starts, plus the piece in progress when it is not empty. *)
Lemma split_ws_go_count (s : jsstring) :
  forall (in_sep : bool) (cur : jsstring),
    (in_sep = true -> cur = []) ->
    length (filter nonempty (split_ws_go in_sep cur s))
    = ((if nonempty cur then 1 else 0)
       + count_word_starts (negb (nonempty cur)) s)%nat.
Proof.
  induction s as [|c r IH]; intros in_sep cur Hsep; simpl.
  - destruct (nonempty cur); reflexivity.
  - destruct (is_space c).
    + destruct in_sep.
      * rewrite (Hsep eq_refl). rewrite IH by reflexivity. reflexivity.
      * simpl. destruct (nonempty cur); simpl;
          rewrite IH by reflexivity; reflexivity.
    + rewrite IH by discriminate. rewrite nonempty_snoc. simpl.
      destruct (nonempty cur); reflexivity.
Qed.

(** Content: the pieces hold the code units that are not white space, in
    order, and nothing else. *)
Lemma split_ws_go_pieces (s : jsstring) :
  forall (in_sep : bool) (cur : jsstring),
    (in_sep = true -> cur = []) ->
    forallb not_space cur = true ->
    Forall (fun w => forallb not_space w = true) (split_ws_go in_sep cur s)
    /\ concat (split_ws_go in_sep cur s) = cur ++ filter not_space s.
Proof.
  induction s as [|c r IH]; intros in_sep cur Hsep Hcur; simpl.
  - split; [constructor; [exact Hcur | constructor] | reflexivity].
  - assert (Hns : not_space c = negb (is_space c)) by reflexivity.
    destruct (is_space c) eqn:Hc; rewrite Hns; simpl.
    + destruct (IH true [] (fun _ => eq_refl) eq_refl) as [Hall Hcat].
      destruct in_sep.
      * rewrite (Hsep eq_refl). split; [exact Hall | exact Hcat].
      * split; [constructor; assumption | simpl; rewrite Hcat; reflexivity].
    + destruct (IH false (cur ++ [c])) as [Hall Hcat].
      * discriminate.
      * rewrite forallb_app, Hcur. simpl. rewrite Hns. reflexivity.
      * split; [exact Hall | rewrite Hcat, <- app_assoc; reflexivity].
Qed.

Lemma ceil_div200_spec (n : Z) :
  200 * (ceil_div200 n - 1) < n <= 200 * ceil_div200 n.
Proof.
  unfold ceil_div200.
  pose proof (Z.div_mod (n + 199) 200 ltac:(lia)) as Hdm.
  pose proof (Z.mod_pos_bound (n + 199) 200 ltac:(lia)) as Hb.
  lia.
Qed.

(** C9.  [generateInsights] counts the words of the text: its [wordCount] is
    the number of non-empty pieces between runs of white space (the pieces
    are free of white space and spell the text without its white space), it
    equals the number of word starts, and [estimatedReadingTime] is the
    least integer [t] with [wordCount <= 200 * t].  On the empty string both
    are 0. *)
Theorem generateInsights_word_count :
  forall text : jsstring,
    wordCount (generateInsights text)
    = Z.of_nat (length (filter nonempty (split_ws text)))
    /\ Forall (fun w => w <> [] /\ forallb not_space w = true)
         (filter nonempty (split_ws text))
    /\ concat (filter nonempty (split_ws text)) = filter not_space text
    /\ wordCount (generateInsights text) = Z.of_nat (spec_word_count text)
    /\ 200 * (estimatedReadingTime (generateInsights text) - 1)
       < wordCount (generateInsights text)
       <= 200 * estimatedReadingTime (generateInsights text)
    /\ wordCount (generateInsights []) = 0
    /\ estimatedReadingTime (generateInsights []) = 0.
Proof.
  intros text.
  destruct (split_ws_go_pieces text false [] ltac:(discriminate) eq_refl)
    as [Hall Hcat].
  repeat split.
  - apply Forall_forall. intros w Hw. apply filter_In in Hw as [Hin Hne].
    split.
    + destruct w; [discriminate | discriminate].
    + rewrite Forall_forall in Hall. apply Hall. exact Hin.
  - rewrite filter_nonempty_concat. exact Hcat.
  - simpl. unfold split_ws.
    rewrite (split_ws_go_count text false []) by discriminate. reflexivity.
  - apply ceil_div200_spec.
  - apply ceil_div200_spec.
Qed.

End InsightFacts.

(* ================================================================== *)
(** * Properties of the summary parser *)
(* ================================================================== *)

Section SummaryFacts.

Import SummaryAnalyzer.

Lemma summary_step_confidence (st : parse_state) (line : jsstring) :
  st_confidence (summary_step st line)
  = match stated_confidence line with
    | Some n => n
    | None => st_confidence st
    end.
Proof.
  unfold summary_step, stated_confidence.
  destruct (includes (toLowerCase line) (js "key points")
            || includes (toLowerCase line) (js "main points"))%bool;
    [reflexivity|].
  destruct (includes (toLowerCase line) (js "confidence")).
  - destruct (first_digits line); reflexivity.
  - destruct (st_section st); [reflexivity|].
    destruct (InsightAnalyzer.is_numbered line || startsWith line [bullet]
              || startsWith line [hyphen])%bool; reflexivity.
Qed.

Lemma summary_fold_silent (lines : list jsstring) :
  (forall line, In line lines -> stated_confidence line = None) ->
  forall st, st_confidence (fold_left summary_step lines st) = st_confidence st.
Proof.
  induction lines as [|l lines IH]; intros Hnone st; simpl.
  - reflexivity.
  - rewrite IH by (intros; apply Hnone; right; assumption).
    rewrite summary_step_confidence, (Hnone l) by (left; reflexivity).
    reflexivity.
Qed.

Lemma summary_fold_last (before after : list jsstring) (line : jsstring) (n : Z) :
  stated_confidence line = Some n ->
  (forall l, In l after -> stated_confidence l = None) ->
  forall st,
    st_confidence (fold_left summary_step (before ++ line :: after) st) = n.
Proof.
  intros Hline Hafter st. rewrite fold_left_app. simpl.
  rewrite summary_fold_silent by exact Hafter.
  rewrite summary_step_confidence, Hline. reflexivity.
Qed.

Lemma stated_confidence_digits (line : jsstring) (n : Z) :
  stated_confidence line = Some n ->
  exists ds, first_digits line = Some ds /\ n = parseInt_digits ds.
Proof.
  unfold stated_confidence.
  destruct (includes (toLowerCase line) (js "key points")
            || includes (toLowerCase line) (js "main points"))%bool;
    [discriminate|].
  destruct (includes (toLowerCase line) (js "confidence")); [|discriminate].
  destruct (first_digits line) as [ds|]; [|discriminate].
  intros H. injection H as <-. exists ds. split; reflexivity.
Qed.

Lemma states_no_confidence_silent (line : jsstring) :
  states_no_confidence line -> stated_confidence line = None.
Proof.
  intros [Hnone | [_ H]]; [|exact H].
  destruct (stated_confidence line) as [n|] eqn:Hs; [|reflexivity].
  apply stated_confidence_digits in Hs as [ds [Hds _]]. congruence.
Qed.

Lemma summary_fold_source (lines : list jsstring) :
  forall st,
    st_confidence (fold_left summary_step lines st) = st_confidence st
    \/ exists line ds,
         In line lines /\ first_digits line = Some ds
         /\ st_confidence (fold_left summary_step lines st) = parseInt_digits ds.
Proof.
  induction lines as [|l lines IH]; intros st; simpl.
  - left. reflexivity.
  - destruct (IH (summary_step st l)) as [Hkeep | (line & ds & Hin & Hds & Hval)].
    + rewrite Hkeep, summary_step_confidence.
      destruct (stated_confidence l) as [n|] eqn:Hs.
      * right. apply stated_confidence_digits in Hs as [ds [Hds ->]].
        exists l, ds. split; [left; reflexivity | split; [exact Hds | reflexivity]].
      * left. reflexivity.
    + right. exists line, ds. split; [right; exact Hin | split; assumption].
Qed.

(** C10.  The confidence of a parsed summary is an integer between 1 and 10,
    for every response: it is 8 or the number on one of the lines, brought
    into the range 1 to 10.  When no line can state a confidence (it has no
    digits, or it is an ASCII line that states none) it is 8; when an ASCII
    line states one and no later line can, it is the number on that line,
    brought into the range 1 to 10. *)
Theorem parseSummaryResponse_confidence :
  forall response : jsstring,
    1 <= confidence (parseSummaryResponse response) <= 10
    /\ (confidence (parseSummaryResponse response) = 8
        \/ exists line ds,
             In line (summary_lines response)
             /\ first_digits line = Some ds
             /\ confidence (parseSummaryResponse response)
                = Z.min 10 (Z.max 1 (parseInt_digits ds)))
    /\ ((forall line, In line (summary_lines response) ->
                      states_no_confidence line) ->
        confidence (parseSummaryResponse response) = 8)
    /\ (forall before line after n,
          summary_lines response = before ++ line :: after ->
          is_ascii line = true ->
          stated_confidence line = Some n ->
          (forall l, In l after -> states_no_confidence l) ->
          confidence (parseSummaryResponse response) = Z.min 10 (Z.max 1 n)).
Proof.
  intros response. split; [|split; [|split]].
  - simpl. lia.
  - simpl. unfold summary_loop.
    destruct (summary_fold_source (summary_lines response)
                {| st_summary := []; st_keyPoints := []; st_confidence := 8;
                   st_section := InSummary |})
      as [Hkeep | (line & ds & Hin & Hds & Hval)].
    + left. rewrite Hkeep. reflexivity.
    + right. exists line, ds. rewrite Hval. repeat split; assumption.
  - intros Hnone. simpl. unfold summary_loop.
    rewrite summary_fold_silent
      by (intros line Hin; apply states_no_confidence_silent; apply Hnone; exact Hin).
    reflexivity.
  - intros before line after n Hsplit _ Hline Hafter. simpl. unfold summary_loop.
    rewrite Hsplit.
    rewrite (summary_fold_last before after line n Hline)
      by (intros l Hin; apply states_no_confidence_silent; apply Hafter; exact Hin).
    reflexivity.
Qed.

Lemma parseSummaryResponse_confidence_witness :
  confidence
    (parseSummaryResponse
       (join_lines [js "A short text."; js "Confidence: 42"; js "Thanks."]))
  = 10.
Proof.
  apply (proj2 (proj2 (proj2 (parseSummaryResponse_confidence
                                (join_lines [js "A short text."; js "Confidence: 42";
                                             js "Thanks."]))))
           [js "A short text."] (js "Confidence: 42") [js "Thanks."] 42).
  - reflexivity.
  - reflexivity.
  - reflexivity.
  - intros l [<- | []]. left. reflexivity.
Defined.

End SummaryFacts.

(* ================================================================== *)
(** * Properties of the stable sort *)
(* ================================================================== *)

Section SortFacts.

Context {A : Type} (key : A -> nat).

Lemma insert_sorted_perm (x : A) (l : list A) :
  Permutation (insert_sorted (desc key) x l) (x :: l).
Proof.
  induction l as [|y l IH]; simpl.
  - apply Permutation_refl.
  - destruct (desc key x y <=? 0).
    + apply Permutation_refl.
    + apply Permutation_trans with (y :: x :: l).
      * apply perm_skip. exact IH.
      * apply perm_swap.
Qed.

Lemma stable_sort_perm (l : list A) : Permutation (stable_sort (desc key) l) l.
Proof.
  induction l as [|x l IH]; simpl.
  - apply perm_nil.
  - apply Permutation_trans with (x :: stable_sort (desc key) l).
    + apply insert_sorted_perm.
    + apply perm_skip. exact IH.
Qed.





(** Sorting the pairs [(a, key a)] by their second component is sorting the
    elements by their key. *)
Lemma insert_sorted_tagged (cmp : A * nat -> A * nat -> Z) (x : A) (l : list A) :
  (forall a b, cmp (a, key a) (b, key b) = desc key a b) ->
  insert_sorted cmp (x, key x) (map (fun a => (a, key a)) l)
  = map (fun a => (a, key a)) (insert_sorted (desc key) x l).
Proof.
  intros Hcmp. induction l as [|y l IH]; simpl.
  - reflexivity.
  - rewrite Hcmp. destruct (desc key x y <=? 0); simpl.
    + reflexivity.
    + rewrite IH. reflexivity.
Qed.

Lemma stable_sort_tagged (cmp : A * nat -> A * nat -> Z) (l : list A) :
  (forall a b, cmp (a, key a) (b, key b) = desc key a b) ->
  stable_sort cmp (map (fun a => (a, key a)) l)
  = map (fun a => (a, key a)) (stable_sort (desc key) l).
Proof.
  intros Hcmp. induction l as [|x l IH]; simpl.
  - reflexivity.
  - rewrite IH. apply insert_sorted_tagged. exact Hcmp.
Qed.

Lemma filter_tagged (p : nat -> bool) (l : list A) :
  filter (fun item : A * nat => p (snd item)) (map (fun a => (a, key a)) l)
  = map (fun a => (a, key a)) (filter (fun a => p (key a)) l).
Proof.
  induction l as [|x l IH]; simpl.
  - reflexivity.
  - destruct (p (key x)); simpl; rewrite IH; reflexivity.
Qed.

End SortFacts.

(* ================================================================== *)
(** * Properties of the keyword retrieval *)
(* ================================================================== *)

Section RetrievalFacts.

Import InsightAnalyzer.

Lemma chunk_score_fold (text : jsstring) (words : list jsstring) :
  forallb is_literal_pattern words = true ->
  forall acc : nat,
    fold_left
      (fun acc word =>
         match acc, match_count word text with
         | Some a, Some count => Some (a + count)%nat
         | _, _ => None
         end)
      words (Some acc)
    = Some (acc + list_sum (map (fun word => literal_match_count word text) words))%nat.
Proof.
  induction words as [|w words IH]; intros Hlit acc; simpl.
  - rewrite Nat.add_0_r. reflexivity.
  - simpl in Hlit. apply andb_true_iff in Hlit as [Hw Hrest].
    unfold match_count at 2. rewrite Hw. rewrite IH by exact Hrest.
    rewrite Nat.add_assoc. reflexivity.
Qed.

Lemma chunk_score_literal (query : jsstring) (chunk : DocumentChunk) :
  forallb is_literal_pattern (split_on space (toLowerCase query)) = true ->
  chunk_score (split_on space (toLowerCase query)) chunk
  = Some (literal_score query chunk).
Proof.
  intros Hlit. unfold chunk_score, literal_score.
  rewrite chunk_score_fold by exact Hlit. reflexivity.
Qed.

Lemma score_all_literal (query : jsstring) (chunks : list DocumentChunk) :
  forallb is_literal_pattern (split_on space (toLowerCase query)) = true ->
  score_all (split_on space (toLowerCase query)) chunks
  = Some (map (fun c => (c, literal_score query c)) chunks).
Proof.
  intros Hlit. induction chunks as [|c chunks IH]; simpl.
  - reflexivity.
  - rewrite chunk_score_literal by exact Hlit. rewrite IH. reflexivity.
Qed.

(** On a query of literal words the result is the head of the chunks of
    positive score, sorted by the score itself. *)
Lemma findSimilarConcepts_literal (chunks : list DocumentChunk) (query : jsstring) :
  forallb is_literal_pattern (split_on space (toLowerCase query)) = true ->
  findSimilarConcepts chunks query
  = Some (firstn 5
            (stable_sort (desc (literal_score query))
               (filter (fun c => (0 <? literal_score query c)%nat) chunks))).
Proof.
  intros Hlit. unfold findSimilarConcepts.
  rewrite score_all_literal by exact Hlit.
  rewrite (filter_tagged (literal_score query) (fun n => (0 <? n)%nat)).
  rewrite (stable_sort_tagged (literal_score query) by_score_desc)
    by (intros; reflexivity).
  rewrite firstn_map, map_map. simpl. rewrite map_id. reflexivity.
Qed.

Lemma plain_words_literal (words : list jsstring) :
  forallb is_plain_word words = true ->
  forallb is_literal_pattern words = true.
Proof.
  induction words as [|w words IH]; simpl; [reflexivity|].
  unfold is_plain_word at 1. intros H.
  apply andb_true_iff in H as [Hw Hrest].
  apply andb_true_iff in Hw as [_ Hw]. rewrite Hw, IH by exact Hrest.
  reflexivity.
Qed.

Lemma plain_score_literal (query : jsstring) (chunk : DocumentChunk) :
  forallb is_plain_word (split_on space (toLowerCase query)) = true ->
  literal_score query chunk = plain_score query chunk.
Proof.
  unfold literal_score, plain_score.
  induction (split_on space (toLowerCase query)) as [|w words IH]; simpl;
    [reflexivity|].
  intros H. apply andb_true_iff in H as [Hw Hrest].
  rewrite IH by exact Hrest.
  destruct w; [discriminate | reflexivity].
Qed.

Lemma stable_sort_ext {A : Type} (cmp cmp' : A -> A -> Z) (l : list A) :
  (forall a b, cmp a b = cmp' a b) ->
  stable_sort cmp l = stable_sort cmp' l.
Proof.
  intros Hext. induction l as [|x l IH]; simpl; [reflexivity|].
  rewrite IH. generalize (stable_sort cmp' l) as sorted.
  induction sorted as [|y sorted IHs]; simpl; [reflexivity|].
  rewrite Hext, IHs. reflexivity.
Qed.


(** Two spaces in a row leave an empty word, which matches at every position
    of every chunk: for the query ["cat  dog"] the chunk ["birds fly"], which
    holds neither token, has score 10 and is returned. *)
Lemma findSimilarConcepts_counts_empty_word :
  split_on space (toLowerCase (js "cat  dog")) = [js "cat"; []; js "dog"]
  /\ token_score (js "cat  dog") (text_chunk 0 "birds fly") = O
  /\ chunk_score (split_on space (toLowerCase (js "cat  dog")))
       (text_chunk 0 "birds fly") = Some 10%nat
  /\ findSimilarConcepts [text_chunk 0 "birds fly"] (js "cat  dog")
     = Some [text_chunk 0 "birds fly"].
Proof.
  repeat split.
Qed.








End RetrievalFacts.

(* ================================================================== *)
(** * Properties of the response parsers and of the provider calls *)
(* ================================================================== *)

Section ParserFacts.

Import InsightAnalyzer.

Context {E : Type} (JSON_parse : jsstring -> result E json).

Lemma get_prop_object (props : list (jsstring * json)) (name : jsstring) :
  @Json.get_prop E (JObj props) name = Ok (Json.lookup name props).
Proof. reflexivity. Qed.

Lemma keyword_attempt_settles (response : jsstring) :
  exists returned,
    try_catch (keyword_json_attempt JSON_parse response) (fun _ => Ok None)
    = Ok returned.
Proof.
  destruct (keyword_json_attempt JSON_parse response) as [r|t]; simpl; eauto.
Qed.

Lemma insight_attempt_settles (response : jsstring) :
  exists returned,
    try_catch (insight_json_attempt JSON_parse response) (fun _ => Ok None)
    = Ok returned.
Proof.
  destruct (insight_json_attempt JSON_parse response) as [r|t]; simpl; eauto.
Qed.

Lemma parseKeywordResponse_total (response : jsstring) :
  exists r, parseKeywordResponse JSON_parse response = Ok r.
Proof.
  unfold parseKeywordResponse.
  destruct (keyword_attempt_settles response) as [[r|] ->]; simpl; eauto.
Qed.

Lemma parseInsightResponse_total (response : jsstring) :
  exists r, parseInsightResponse JSON_parse response = Ok r.
Proof.
  unfold parseInsightResponse.
  destruct (insight_attempt_settles response) as [[r|] ->]; simpl; eauto.
Qed.

Lemma parseKeywordResponse_object (response text : jsstring)
    (props : list (jsstring * json)) :
  json_span response = Some text ->
  JSON_parse text = Ok (JObj props) ->
  parseKeywordResponse JSON_parse response
  = Ok {| keywords := Json.js_or (Json.lookup (js "keywords") props) (JArr []);
          entities := Json.js_or (Json.lookup (js "entities") props) (JArr []);
          kw_topics := Json.js_or (Json.lookup (js "topics") props) (JArr []);
          concepts := Json.js_or (Json.lookup (js "concepts") props) (JArr []) |}.
Proof.
  intros Hspan Hparse. unfold parseKeywordResponse, keyword_json_attempt.
  rewrite Hspan, Hparse. reflexivity.
Qed.

Lemma parseInsightResponse_object (response text : jsstring)
    (props : list (jsstring * json)) :
  json_span response = Some text ->
  JSON_parse text = Ok (JObj props) ->
  parseInsightResponse JSON_parse response
  = Ok {| sentiment :=
            Json.js_or (Json.lookup (js "sentiment") props) (JStr (js "neutral"));
          topics := Json.js_or (Json.lookup (js "topics") props) (JArr []);
          complexity :=
            Json.js_or (Json.lookup (js "complexity") props) (JStr (js "medium"));
          readabilityScore :=
            Json.js_or (Json.lookup (js "readabilityScore") props) (JNum (50 # 1));
          keyInsights := Json.js_or (Json.lookup (js "keyInsights") props) (JArr []);
          recommendations :=
            Json.js_or (Json.lookup (js "recommendations") props) (JArr []) |}.
Proof.
  intros Hspan Hparse. unfold parseInsightResponse, insight_json_attempt.
  rewrite Hspan, Hparse. reflexivity.
Qed.

(** Without a JSON object in the response, or when [JSON.parse] throws, the
    insight parser answers with the defaults. *)
Lemma parseInsightResponse_fallback (response : jsstring) :
  (json_span response = None
   \/ exists text t, json_span response = Some text /\ JSON_parse text = Throw t) ->
  parseInsightResponse JSON_parse response = Ok default_insights.
Proof.
  unfold parseInsightResponse, insight_json_attempt.
  intros [-> | [text [t [-> ->]]]]; reflexivity.
Qed.

End ParserFacts.

Section ParserClaims.

Import InsightAnalyzer.

(** C5.  The line scan does not return "foo" and "bar" on the code: on the
    response made of the lines "Keywords: ", "1. foo", "2. bar" the class of
    the item pattern is met by the digit alone, so the group starts at the
    full stop, and the keywords are ". foo" and ". bar".  [parseQuestions],
    whose pattern is anchored and reads the number and the full stop, gives
    "foo" and "bar" on the same two lines. *)
Theorem extractListFromText_keeps_full_stop :
  extractListFromText keywords_response (js "keywords") = [js ". foo"; js ". bar"]
  /\ match_item (js "1. foo") = Some (js ". foo")
  /\ (forall (E : Type) (JSON_parse : jsstring -> result E json),
        parseKeywordResponse JSON_parse keywords_response
        = Ok {| keywords := string_list [js ". foo"; js ". bar"];
                entities := JArr [];
                kw_topics := JArr [];
                concepts := JArr [] |})
  /\ parseQuestions keywords_response = [js "foo"; js "bar"].
Proof.
  repeat split.
Qed.

(** C8.  Whatever [JSON.parse] does and whatever the response is, the two
    parsers return a result and throw nothing.  When the response holds an
    object that [JSON.parse] accepts, every field that the object lacks has
    its default: the empty list, "neutral", "medium", 50.  When it holds
    none, or [JSON.parse] throws, the insight parser returns the defaults for
    all fields. *)
Theorem parsers_never_throw :
  forall (E : Type) (JSON_parse : jsstring -> result E json) (response : jsstring),
    (exists r, parseKeywordResponse JSON_parse response = Ok r)
    /\ (exists r, parseInsightResponse JSON_parse response = Ok r)
    /\ (forall text props,
          json_span response = Some text ->
          JSON_parse text = Ok (JObj props) ->
          exists kr ir,
            parseKeywordResponse JSON_parse response = Ok kr
            /\ parseInsightResponse JSON_parse response = Ok ir
            /\ (Json.lookup (js "keywords") props = None -> keywords kr = JArr [])
            /\ (Json.lookup (js "entities") props = None -> entities kr = JArr [])
            /\ (Json.lookup (js "topics") props = None ->
                kw_topics kr = JArr [] /\ topics ir = JArr [])
            /\ (Json.lookup (js "concepts") props = None -> concepts kr = JArr [])
            /\ (Json.lookup (js "sentiment") props = None ->
                sentiment ir = JStr (js "neutral"))
            /\ (Json.lookup (js "complexity") props = None ->
                complexity ir = JStr (js "medium"))
            /\ (Json.lookup (js "readabilityScore") props = None ->
                readabilityScore ir = JNum (50 # 1))
            /\ (Json.lookup (js "keyInsights") props = None ->
                keyInsights ir = JArr [])
            /\ (Json.lookup (js "recommendations") props = None ->
                recommendations ir = JArr []))
    /\ ((json_span response = None
         \/ exists text t, json_span response = Some text /\ JSON_parse text = Throw t) ->
        parseInsightResponse JSON_parse response = Ok default_insights).
Proof.
  intros E JSON_parse response.
  split; [apply parseKeywordResponse_total|].
  split; [apply parseInsightResponse_total|].
  split; [|apply parseInsightResponse_fallback].
  intros text props Hspan Hparse.
  eexists. eexists.
  split; [apply (parseKeywordResponse_object JSON_parse response text props Hspan Hparse)|].
  split; [apply (parseInsightResponse_object JSON_parse response text props Hspan Hparse)|].
  simpl.
  repeat match goal with |- _ /\ _ => split end;
    intros ->; simpl; try split; reflexivity.
Qed.

Lemma parsers_never_throw_witness :
  exists kr ir,
    parseKeywordResponse parse_empty_object (js "{}") = Ok kr
    /\ parseInsightResponse parse_empty_object (js "{}") = Ok ir
    /\ keywords kr = JArr []
    /\ readabilityScore ir = JNum (50 # 1).
Proof.
  destruct (proj1 (proj2 (proj2 (parsers_never_throw unit parse_empty_object (js "{}"))))
              (js "{}") [] eq_refl eq_refl)
    as [kr [ir [Hk [Hi [Hkw [_ [_ [_ [_ [_ [Hr _]]]]]]]]]]].
  exists kr, ir.
  split; [exact Hk|]. split; [exact Hi|].
  split; [apply Hkw; reflexivity | apply Hr; reflexivity].
Defined.

End ParserClaims.

Section ProviderClaims.

Import InsightAnalyzer SummaryAnalyzer.

(** C4, counterexample.  With a client whose every invocation fails,
    [summarizeDocument] does not return a default result: it throws a new
    error that wraps the failure. *)
Lemma summarizeDocument_rethrows :
  summarizeDocument describe_failure failing_client failing_client
    (sample_config 1000 200) sample_document default_options
  = Throw (NewError (js "Failed to generate summary: Error: rate limit")).
Proof.
  reflexivity.
Qed.

Lemma failed_call_is_thrown {E A : Type}
    (groq_invoke openai_invoke : prompt -> result E jsstring)
    (config : Config.AppConfig) (p : prompt) (k : jsstring -> result E A) :
  (forall q, exists t, groq_invoke q = Throw t) ->
  (forall q, exists t, openai_invoke q = Throw t) ->
  exists t,
    (llm <- ModelManager.getLLM groq_invoke openai_invoke config ;;
     response <- llm p ;; k response) = Throw t.
Proof.
  intros Hg Ho. unfold ModelManager.getLLM.
  destruct (Config.truthy_string (Config.groq_apiKey config)).
  - destruct (Hg p) as [t Ht]. exists t. simpl. rewrite Ht. reflexivity.
  - destruct (Config.truthy_string (Config.openai_apiKey config)).
    + destruct (Ho p) as [t Ht]. exists t. simpl. rewrite Ht. reflexivity.
    + eexists. reflexivity.
Qed.

Lemma summarizeDocument_wraps {E : Type} (describe : E -> jsstring)
    (groq_invoke openai_invoke : prompt -> result E jsstring)
    (config : Config.AppConfig) (document : Document) (options : SummaryOptions) :
  (forall q, exists t, groq_invoke q = Throw t) ->
  (forall q, exists t, openai_invoke q = Throw t) ->
  exists t,
    summarizeDocument describe groq_invoke openai_invoke config document options
    = Throw (NewError (js "Failed to generate summary: " ++ error_text describe t)).
Proof.
  intros Hg Ho. unfold summarizeDocument.
  destruct (failed_call_is_thrown groq_invoke openai_invoke config
              (buildSummaryPrompt (doc_content document)
                 (option_default (opt_maxLength options) 500)
                 (option_default (opt_style options) Paragraph)
                 (option_default (opt_focus options)
                    (js "main concepts and important details")))
              (fun response => Ok (parseSummaryResponse response)) Hg Ho) as [t Ht].
  exists t. rewrite Ht. reflexivity.
Qed.

(** C4, amended.  When every invocation of the language model fails, the
    operations of [InsightAnalyzer] catch the failure and return their
    default result: empty lists for [extractKeywords], the default insights
    for [analyzeInsights], no questions for [generateQuestions].  The
    operations of [SummaryAnalyzer] ([summarizeDocument], [summarizeChunks],
    [generateAbstract]) catch it and throw a new error that wraps it. *)
Theorem provider_failure_handling :
  forall (E : Type) (describe : E -> jsstring)
         (JSON_parse : jsstring -> result E json)
         (groq_invoke openai_invoke : prompt -> result E jsstring)
         (config : Config.AppConfig) (document : Document)
         (chunks : list DocumentChunk) (options : SummaryOptions),
    (forall q, exists t, groq_invoke q = Throw t) ->
    (forall q, exists t, openai_invoke q = Throw t) ->
    extractKeywords JSON_parse groq_invoke openai_invoke config document
    = Ok empty_keywords
    /\ analyzeInsights JSON_parse groq_invoke openai_invoke config document
       = Ok default_insights
    /\ generateQuestions groq_invoke openai_invoke config document = Ok []
    /\ (exists t,
          summarizeDocument describe groq_invoke openai_invoke config document options
          = Throw (NewError (js "Failed to generate summary: " ++ error_text describe t)))
    /\ (exists t,
          summarizeChunks describe groq_invoke openai_invoke config chunks options
          = Throw (NewError (js "Failed to generate summary: " ++ error_text describe t)))
    /\ (exists t,
          generateAbstract describe groq_invoke openai_invoke config document
          = Throw (NewError (js "Failed to generate abstract: " ++ error_text describe t))).
Proof.
  intros E describe JSON_parse groq_invoke openai_invoke config document chunks
    options Hg Ho.
  repeat split.
  - unfold extractKeywords.
    destruct (failed_call_is_thrown groq_invoke openai_invoke config
                (KeywordPrompt (substring0 (doc_content document) 2000))
                (parseKeywordResponse JSON_parse) Hg Ho) as [t ->].
    reflexivity.
  - unfold analyzeInsights.
    destruct (failed_call_is_thrown groq_invoke openai_invoke config
                (InsightPrompt (substring0 (doc_content document) 2500))
                (parseInsightResponse JSON_parse) Hg Ho) as [t ->].
    reflexivity.
  - unfold generateQuestions.
    destruct (failed_call_is_thrown groq_invoke openai_invoke config
                (QuestionsPrompt (substring0 (doc_content document) 1500))
                (fun response => Ok (parseQuestions response)) Hg Ho) as [t ->].
    reflexivity.
  - apply summarizeDocument_wraps; assumption.
  - unfold summarizeChunks. apply summarizeDocument_wraps; assumption.
  - unfold generateAbstract.
    destruct (failed_call_is_thrown groq_invoke openai_invoke config
                (AbstractPrompt (substring0 (doc_content document) 2000))
                (fun response => Ok (trim response)) Hg Ho) as [t Ht].
    exists t. rewrite Ht. reflexivity.
Qed.

Lemma provider_failure_handling_witness :
  extractKeywords parse_empty_object failing_client failing_client
    (sample_config 1000 200) sample_document
  = Ok empty_keywords.
Proof.
  apply (provider_failure_handling unit describe_failure parse_empty_object
           failing_client failing_client (sample_config 1000 200) sample_document
           sample_chunks default_options).
  - intros q. exists (Raised tt). reflexivity.
  - intros q. exists (Raised tt). reflexivity.
Defined.

End ProviderClaims.

(* ================================================================== *)
(** * Further properties of the chunker *)
(* ================================================================== *)

Section ChunkerLayout.

Import BaseProcessor.

Context {RNG : Type} (uuidv4 : RNG -> jsstring * RNG).

(** What holds before the loop and is kept by every pass holds when the
    loop is left, and the condition is false then. *)
Lemma while_loop_invariant (P : @loop_state RNG -> Prop)
    document text W O :
  (forall st, P st -> loop_cond text st = true ->
              P (loop_body uuidv4 document text W O st)) ->
  forall fuel st st',
    P st ->
    while_loop uuidv4 fuel document text W O st = Some st' ->
    P st' /\ loop_cond text st' = false.
Proof.
  intros Hstep. induction fuel as [|fuel IH]; intros st st' HP Hrun; simpl in Hrun.
  - discriminate.
  - destruct (loop_cond text st) eqn:Hc.
    + apply (IH _ _ (Hstep st HP Hc) Hrun).
    + injection Hrun as <-. split; assumption.
Qed.

Lemma chained_snoc document text W O (c : DocumentChunk) :
  forall cs start idx,
    chained document text W O start idx cs ->
    chained document text W O
      (next_start (Z.of_nat (length text)) W O start (length cs))
      (idx + Z.of_nat (length cs)) [c] ->
    chained document text W O start idx (cs ++ [c]).
Proof.
  induction cs as [|c0 cs IH]; intros start idx Hcs Hc.
  - simpl in *. rewrite Z.add_0_r in Hc. exact Hc.
  - simpl in Hcs. destruct Hcs as (Hi & Hd & Hs & Hlt & He & Hcont & Hrest).
    simpl. repeat split; try assumption.
    apply IH; [exact Hrest|].
    simpl length in Hc. simpl next_start in Hc.
    replace (idx + 1 + Z.of_nat (length cs)) with (idx + Z.of_nat (S (length cs)))
      by lia.
    exact Hc.
Qed.

Lemma next_start_snoc len W O : forall n start,
  next_start len W O start (S n)
  = Z.min (next_start len W O start n + W) len - O.
Proof.
  induction n as [|n IH]; intros start.
  - reflexivity.
  - change (next_start len W O start (S (S n)))
      with (next_start len W O (Z.min (start + W) len - O) (S n)).
    rewrite IH. reflexivity.
Qed.

Lemma layout_invariant_kept document text W O (st : @loop_state RNG) :
  layout_invariant document text W O st ->
  loop_cond text st = true ->
  layout_invariant document text W O (loop_body uuidv4 document text W O st).
Proof.
  intros (Hch & Hs & Hi) Hc. unfold loop_cond in Hc. apply Z.ltb_lt in Hc.
  unfold layout_invariant.
  rewrite loop_body_chunks, loop_body_startIndex, loop_body_chunkIndex.
  rewrite length_app. simpl length. rewrite Nat.add_1_r.
  split; [|split].
  - apply chained_snoc; [exact Hch|].
    rewrite <- Hs. simpl. rewrite Hi. simpl. repeat split; try reflexivity.
    exact Hc.
  - rewrite next_start_snoc, <- Hs. reflexivity.
  - rewrite Hi. lia.
Qed.

Lemma after_passes_succ document text W O (g : RNG) (n : nat) :
  after_passes uuidv4 document text W O g (S n)
  = loop_body uuidv4 document text W O (after_passes uuidv4 document text W O g n).
Proof. reflexivity. Qed.

Lemma after_passes_layout document text W O (g : RNG) :
  forall n : nat,
    (forall k, (k < n)%nat ->
               loop_cond text (after_passes uuidv4 document text W O g k) = true) ->
    layout_invariant document text W O (after_passes uuidv4 document text W O g n)
    /\ length (chunks (after_passes uuidv4 document text W O g n)) = n.
Proof.
  induction n as [|n IH]; intros Hcond.
  - split; [|reflexivity]. repeat split.
  - destruct IH as [Hinv Hlen]; [intros k Hk; apply Hcond; lia|].
    rewrite after_passes_succ. split.
    + apply layout_invariant_kept; [exact Hinv | apply Hcond; lia].
    + rewrite loop_body_chunks, length_app, Hlen. simpl. lia.
Qed.

Lemma after_passes_stuck document text W O (g : RNG) :
  text <> [] -> 0 < O \/ W <= O ->
  forall n : nat,
    startIndex (after_passes uuidv4 document text W O g n) < Z.of_nat (length text).
Proof.
  intros Hne Hov. induction n as [|n IH].
  - simpl. destruct text; [congruence | simpl; lia].
  - rewrite after_passes_succ, loop_body_startIndex. lia.
Qed.

(** X1.  Whatever the window and the overlap, the chunks that the loop of
    [createChunks] has produced after any number of passes are laid out from
    offset 0 and index 0: chunk [i] has index [i] and the document's
    identifier, starts below the end of the text, ends at
    [min (start + W, length)], holds exactly that slice of the text, and the
    next chunk starts [O] before its end.  On a non-empty text with a
    positive overlap, or one not below the window, this is so after every
    number of passes; and it is so for the chunks of a call that returns. *)
Theorem createChunks_layout :
  forall document text W O (g : RNG) (n : nat),
    (forall k, (k < n)%nat ->
               loop_cond text (after_passes uuidv4 document text W O g k) = true) ->
    chained document text W O 0 0
      (chunks (after_passes uuidv4 document text W O g n))
    /\ length (chunks (after_passes uuidv4 document text W O g n)) = n
    /\ startIndex (after_passes uuidv4 document text W O g n)
       = next_start (Z.of_nat (length text)) W O 0 n
    /\ (text <> [] -> 0 < O \/ W <= O ->
        forall m : nat,
          chained document text W O 0 0
            (chunks (after_passes uuidv4 document text W O g m))
          /\ length (chunks (after_passes uuidv4 document text W O g m)) = m)
    /\ (forall fuel cs g',
          createChunks uuidv4 fuel document text W O g = Some (cs, g') ->
          chained document text W O 0 0 cs
          /\ Z.of_nat (length text)
             <= next_start (Z.of_nat (length text)) W O 0 (length cs)).
Proof.
  intros document text W O g n Hcond.
  destruct (after_passes_layout document text W O g n Hcond)
    as [(Hch & Hs & _) Hlen].
  split; [exact Hch|]. split; [exact Hlen|].
  split; [rewrite Hs, Hlen; reflexivity|]. split.
  - intros Hne Hov m.
    destruct (after_passes_layout document text W O g m) as [(Hch' & _) Hlen'].
    + intros k _. unfold loop_cond. apply Z.ltb_lt.
      apply after_passes_stuck; assumption.
    + split; assumption.
  - intros fuel cs g' Hrun. unfold createChunks in Hrun.
    destruct (while_loop uuidv4 fuel document text W O (loop_init g)) as [st|] eqn:Hw;
      [|discriminate].
    injection Hrun as <- <-.
    destruct (while_loop_invariant (layout_invariant document text W O)
                document text W O (layout_invariant_kept document text W O)
                fuel (loop_init g) st) as [(Hch' & Hs' & _) Hexit].
    + repeat split.
    + exact Hw.
    + split; [exact Hch'|].
      unfold loop_cond in Hexit. apply Z.ltb_ge in Hexit. rewrite <- Hs'. exact Hexit.
Qed.

End ChunkerLayout.

Lemma createChunks_layout_witness :
  chained sample_document (js "abc") 2 1 0 0
    (BaseProcessor.chunks
       (after_passes uuid_counter sample_document (js "abc") 2 1 0%nat 4))
  /\ length (BaseProcessor.chunks
               (after_passes uuid_counter sample_document (js "abc") 2 1 0%nat 4))
     = 4%nat.
Proof.
  destruct (createChunks_layout uuid_counter sample_document (js "abc") 2 1 0%nat 4)
    as [Hch [Hlen _]].
  - intros k Hk.
    destruct k as [|[|[|[|k]]]]; [reflexivity | reflexivity | reflexivity
                                 | reflexivity | lia].
  - split; [exact Hch | exact Hlen].
Defined.

Section ChunkerWithoutOverlap.

Import BaseProcessor.

Context {RNG : Type} (uuidv4 : RNG -> jsstring * RNG).

Lemma firstn_then_more {A : Type} (a b : nat) :
  forall l : list A, firstn a l ++ firstn b (skipn a l) = firstn (a + b) l.
Proof.
  induction a as [|a IH]; intros l; simpl.
  - reflexivity.
  - destruct l as [|x l]; simpl.
    + destruct b; reflexivity.
    + rewrite IH. reflexivity.
Qed.

Lemma slice_inside (s : jsstring) (a b : Z) :
  0 <= a <= b -> b <= Z.of_nat (length s) ->
  slice s a b = firstn (Z.to_nat (b - a)) (skipn (Z.to_nat a) s).
Proof.
  intros Hab Hb. unfold slice, rel_index.
  destruct (Z.ltb_spec a 0); [lia|]. destruct (Z.ltb_spec b 0); [lia|].
  rewrite !Z.min_l by lia. reflexivity.
Qed.

Lemma partition_invariant_kept document text W (st : @loop_state RNG) :
  0 < W ->
  partition_invariant text W st ->
  loop_cond text st = true ->
  partition_invariant text W (loop_body uuidv4 document text W 0 st).
Proof.
  intros HW (Hcat & Hs & Hn) Hc. unfold loop_cond in Hc. apply Z.ltb_lt in Hc.
  assert (Hn0 : 0 <= Z.of_nat (length (chunks st)) * W) by nia.
  assert (Hstart : startIndex st = Z.of_nat (length (chunks st)) * W) by lia.
  unfold partition_invariant.
  rewrite loop_body_chunks, loop_body_startIndex, length_app, map_app, concat_app.
  simpl length. rewrite Nat.add_1_r. simpl concat. rewrite app_nil_r.
  split; [|split].
  - rewrite Hcat, slice_inside by lia.
    rewrite firstn_then_more. f_equal. lia.
  - rewrite Hstart. rewrite Nat2Z.inj_succ. lia.
  - right. rewrite Nat2Z.inj_succ. lia.
Qed.

(** X2.  Without overlap and with a positive window the call returns, the
    contents of the chunks put end to end are the text, and there are
    [ceil (length / W)] chunks. *)
Theorem createChunks_partitions_without_overlap :
  forall document text W (g : RNG),
    0 < W ->
    exists cs g',
      createChunks uuidv4 (S (length text)) document text W 0 g = Some (cs, g')
      /\ concat (map content cs) = text
      /\ Z.of_nat (length cs) = (Z.of_nat (length text) + W - 1) / W.
Proof.
  intros document text W g HW. unfold createChunks.
  destruct (while_loop_exits uuidv4 document text W 0 HW (Z.le_refl 0)
              (S (length text)) (loop_init g)) as [st [Hrun Hge]].
  { simpl. lia. }
  rewrite Hrun. exists (chunks st), (rng st). split; [reflexivity|].
  destruct (while_loop_invariant uuidv4 (partition_invariant text W)
              document text W 0
              (fun st0 => partition_invariant_kept document text W st0 HW)
              (S (length text)) (loop_init g) st) as [(Hcat & Hs & Hn) _].
  - unfold partition_invariant. simpl.
    split; [reflexivity | split; [lia | left; reflexivity]].
  - exact Hrun.
  - assert (Hend : startIndex st = Z.of_nat (length text)) by lia.
    split.
    + rewrite Hcat, Hend, Nat2Z.id. apply firstn_all.
    + apply Z.div_unique with
        (r := Z.of_nat (length text) + W - 1 - W * Z.of_nat (length (chunks st))).
      * left. destruct Hn as [Hn|Hn].
        -- rewrite Hn in *. simpl in *. lia.
        -- nia.
      * lia.
Qed.

(** X3.  On a non-empty text the call never returns when the overlap is
    positive, or when it is not below the window: no amount of fuel gives a
    result.  The defaults, window 1000 and overlap 200, are such a case. *)
Theorem createChunks_never_returns_with_overlap :
  forall fuel document text W O (g : RNG),
    text <> [] ->
    0 < O \/ W <= O ->
    createChunks uuidv4 fuel document text W O g = None.
Proof.
  intros fuel document text W O g Hne Hov.
  apply createChunks_stuck; assumption.
Qed.

End ChunkerWithoutOverlap.

Lemma createChunks_partitions_without_overlap_witness :
  exists cs g',
    BaseProcessor.createChunks uuid_counter 8 sample_document (js "abcdefg") 3 0 0%nat
    = Some (cs, g')
    /\ concat (map content cs) = js "abcdefg"
    /\ Z.of_nat (length cs) = (7 + 3 - 1) / 3.
Proof.
  apply (createChunks_partitions_without_overlap uuid_counter sample_document
           (js "abcdefg") 3 0%nat).
  lia.
Defined.

Lemma createChunks_never_returns_with_overlap_witness :
  BaseProcessor.createChunks uuid_counter 50 sample_document (js "abc") 1000 200 0%nat
  = None.
Proof.
  apply (createChunks_never_returns_with_overlap uuid_counter 50 sample_document
           (js "abc") 1000 200 0%nat).
  - discriminate.
  - left. lia.
Defined.

(* ================================================================== *)
(** * Further properties of the local insights *)
(* ================================================================== *)

Section InsightAlgebra.

Import BaseProcessor.

Lemma wordCount_word_starts (text : jsstring) :
  wordCount (generateInsights text) = Z.of_nat (count_word_starts true text).
Proof.
  simpl. unfold split_ws.
  rewrite (split_ws_go_count text false []) by discriminate. reflexivity.
Qed.

Lemma count_word_starts_app (c : N) (b : jsstring) :
  is_space c = true ->
  forall (a : jsstring) (p : bool),
    count_word_starts p (a ++ c :: b)
    = (count_word_starts p a + count_word_starts true b)%nat.
Proof.
  intros Hc. induction a as [|x a IH]; intros p; simpl.
  - rewrite Hc. reflexivity.
  - destruct (is_space x); rewrite IH; lia.
Qed.

Lemma count_word_starts_zero (s : jsstring) :
  count_word_starts true s = 0%nat <-> forallb is_space s = true.
Proof.
  induction s as [|c s IH]; simpl.
  - split; reflexivity.
  - destruct (is_space c); simpl.
    + exact IH.
    + split; intros H; discriminate H.
Qed.

Lemma count_word_starts_bound (s : jsstring) :
  forall p : bool,
    (2 * count_word_starts p s <= length s + (if p then 1 else 0))%nat.
Proof.
  induction s as [|c s IH]; intros p; simpl.
  - lia.
  - destruct (is_space c).
    + specialize (IH true). simpl in IH. destruct p; lia.
    + specialize (IH false). simpl in IH. destruct p; lia.
Qed.

(** X4.  Word counts add up across white space: the count of two texts
    joined by a white-space character is the sum of their counts. *)
Theorem generateInsights_counts_add :
  forall (a b : jsstring) (c : N),
    is_space c = true ->
    wordCount (generateInsights (a ++ c :: b))
    = wordCount (generateInsights a) + wordCount (generateInsights b).
Proof.
  intros a b c Hc. rewrite !wordCount_word_starts.
  rewrite (count_word_starts_app c b Hc). lia.
Qed.

Lemma generateInsights_counts_add_witness :
  wordCount (generateInsights (js "the cat" ++ 10%N :: js "sat down"))
  = wordCount (generateInsights (js "the cat"))
    + wordCount (generateInsights (js "sat down")).
Proof.
  apply (generateInsights_counts_add (js "the cat") (js "sat down") 10%N).
  reflexivity.
Defined.

(** X5.  The word count is 0 exactly on the texts made of white space only
    (the empty text among them), the reading time is 0 exactly when the word
    count is, and a text of [n] code units has at most [(n + 1) / 2] words. *)
Theorem generateInsights_no_words :
  forall text : jsstring,
    (wordCount (generateInsights text) = 0 <-> forallb is_space text = true)
    /\ (estimatedReadingTime (generateInsights text) = 0
        <-> wordCount (generateInsights text) = 0)
    /\ 0 <= 2 * wordCount (generateInsights text) <= Z.of_nat (length text) + 1.
Proof.
  intros text. split; [|split].
  - rewrite wordCount_word_starts. rewrite <- count_word_starts_zero. lia.
  - pose proof (ceil_div200_spec (wordCount (generateInsights text))) as Hc.
    assert (Hnn : 0 <= wordCount (generateInsights text))
      by (rewrite wordCount_word_starts; lia).
    change (estimatedReadingTime (generateInsights text))
      with (ceil_div200 (wordCount (generateInsights text))) in *.
    lia.
  - rewrite wordCount_word_starts.
    pose proof (count_word_starts_bound text true) as Hb. simpl in Hb. lia.
Qed.

End InsightAlgebra.

(* ================================================================== *)
(** * Further properties of the keyword retrieval *)
(* ================================================================== *)

Section RetrievalBounds.

Import InsightAnalyzer.

Lemma score_all_chunks (words : list jsstring) :
  forall chunks scored,
    score_all words chunks = Some scored -> map fst scored = chunks.
Proof.
  induction chunks as [|c chunks IH]; intros scored H; simpl in H.
  - injection H as <-. reflexivity.
  - destruct (chunk_score words c); [|discriminate].
    destruct (score_all words chunks) as [rest|]; [|discriminate].
    injection H as <-. simpl. rewrite (IH rest eq_refl). reflexivity.
Qed.

Lemma firstn_incl {A : Type} (n : nat) (l : list A) (x : A) :
  In x (firstn n l) -> In x l.
Proof.
  intros H. rewrite <- (firstn_skipn n l). apply in_or_app. left. exact H.
Qed.

Lemma score_all_defined (words : list jsstring) (chunks : list DocumentChunk) :
  forallb is_literal_pattern words = true ->
  exists scored, score_all words chunks = Some scored.
Proof.
  intros Hlit. induction chunks as [|c chunks [scored IH]]; simpl.
  - eexists. reflexivity.
  - unfold chunk_score. rewrite chunk_score_fold by exact Hlit. rewrite IH.
    eexists. reflexivity.
Qed.

(** X6.  For every query whose words, cut at the spaces of the lower-cased
    query, hold no character special to regular expressions, empty words
    included, [findSimilarConcepts] returns, and its result holds at most 5
    chunks, no more chunks than it was given, and only chunks that it was
    given. *)
Theorem findSimilarConcepts_bounds :
  forall (chunks : list DocumentChunk) (query : jsstring),
    forallb is_literal_pattern (split_on space (toLowerCase query)) = true ->
    exists result,
      findSimilarConcepts chunks query = Some result
      /\ (length result <= 5)%nat
      /\ (length result <= length chunks)%nat
      /\ (forall c, In c result -> In c chunks).
Proof.
  intros chunks query Hlit. unfold findSimilarConcepts.
  destruct (score_all_defined _ chunks Hlit) as [scored Hs]. rewrite Hs.
  set (kept := filter (fun item : DocumentChunk * nat => (0 <? snd item)%nat) scored).
  exists (map fst (firstn 5 (stable_sort (desc (@snd DocumentChunk nat)) kept))).
  split; [reflexivity|].
  apply score_all_chunks in Hs.
  pose proof (stable_sort_perm (@snd DocumentChunk nat) kept) as Hperm.
  split; [|split].
  - rewrite length_map. apply firstn_le_length.
  - rewrite length_map, length_firstn.
    rewrite (Permutation_length Hperm). rewrite <- Hs, length_map.
    pose proof (filter_length_le (fun item : DocumentChunk * nat => (0 <? snd item)%nat)
                  scored) as Hle.
    fold kept in Hle. lia.
  - intros c Hin. apply in_map_iff in Hin as [item [<- Hitem]].
    apply firstn_incl in Hitem.
    apply (Permutation_in _ Hperm) in Hitem.
    unfold kept in Hitem. apply filter_In in Hitem as [Hitem _].
    rewrite <- Hs. apply in_map. exact Hitem.
Qed.

Lemma findSimilarConcepts_bounds_witness :
  exists result,
    findSimilarConcepts sample_chunks (js "cat  dog") = Some result
    /\ (length result <= 5)%nat
    /\ (length result <= length sample_chunks)%nat
    /\ (forall c, In c result -> In c sample_chunks).
Proof.
  apply (findSimilarConcepts_bounds sample_chunks (js "cat  dog")).
  reflexivity.
Defined.

Lemma filter_all {A : Type} (f : A -> bool) (l : list A) :
  (forall x, f x = true) -> filter f l = l.
Proof.
  intros Hf. induction l as [|x l IH]; simpl; [reflexivity|].
  rewrite Hf, IH. reflexivity.
Qed.

(** X7.  On chunks of ASCII content the empty query selects every chunk:
    its one word is empty and matches at each position of any content.  The
    result is the first 5 of the chunks by descending length of content,
    chunks of equal length in their original order. *)
Theorem findSimilarConcepts_empty_query :
  forall chunks : list DocumentChunk,
    ascii_contents chunks = true ->
    findSimilarConcepts chunks []
    = Some (firstn 5
              (stable_sort (desc (fun c => S (length (content c)))) chunks)).
Proof.
  intros chunks _.
  rewrite (findSimilarConcepts_literal chunks [] eq_refl).
  assert (Hscore : forall c, literal_score [] c = S (length (content c))).
  { intros c. unfold literal_score. simpl. unfold toLowerCase.
    rewrite length_map. lia. }
  rewrite filter_all by (intros c; rewrite Hscore; reflexivity).
  rewrite (stable_sort_ext (desc (literal_score []))
             (desc (fun c => S (length (content c)))))
    by (intros a b; unfold desc; rewrite !Hscore; reflexivity).
  reflexivity.
Qed.

Lemma findSimilarConcepts_empty_query_witness :
  findSimilarConcepts sample_chunks []
  = Some [text_chunk 0 "the cat sat"; text_chunk 1 "the dog ran";
          text_chunk 2 "birds fly"].
Proof.
  apply (findSimilarConcepts_empty_query sample_chunks).
  reflexivity.
Defined.

Lemma includes_cons (x : N) (s word : jsstring) :
  includes (x :: s) word = (startsWith (x :: s) word || includes s word)%bool.
Proof. reflexivity. Qed.

Lemma count_from_cons (skip : nat) (x : N) (s word : jsstring) :
  count_from skip word (x :: s)
  = match skip with
    | S k => count_from k word s
    | O => if startsWith (x :: s) word
           then S (count_from (length word - 1) word s)
           else count_from O word s
    end.
Proof. reflexivity. Qed.

Lemma count_from_includes (word : jsstring) :
  forall (s : jsstring) (skip : nat),
    (0 < count_from skip word s)%nat -> includes s word = true.
Proof.
  induction s as [|x s IH]; intros skip H.
  - simpl in H. lia.
  - rewrite count_from_cons in H. rewrite includes_cons.
    destruct skip as [|k].
    + destruct (startsWith (x :: s) word) eqn:Hsw; [reflexivity|].
      simpl. apply (IH O). exact H.
    + rewrite (IH k H). apply orb_true_r.
Qed.

Lemma includes_count_from (word : jsstring) :
  word <> [] ->
  forall s : jsstring, includes s word = true -> (0 < count_from O word s)%nat.
Proof.
  intros Hne. induction s as [|x s IH]; intros H.
  - destruct word; [congruence | discriminate H].
  - rewrite includes_cons in H. rewrite count_from_cons.
    destruct (startsWith (x :: s) word) eqn:Hsw.
    + lia.
    + simpl in H. apply IH. exact H.
Qed.

Lemma list_sum_positive (l : list nat) :
  (0 < list_sum l)%nat <-> exists n, In n l /\ (0 < n)%nat.
Proof.
  induction l as [|a l IH]; simpl.
  - split; [lia | intros [n [[] _]]].
  - split.
    + intros H. destruct (Nat.eq_dec a 0) as [->|Ha].
      * apply IH in H as [n [Hin Hn]]. exists n. split; [right|]; assumption.
      * exists a. split; [left; reflexivity | lia].
    + intros [n [[->|Hin] Hn]]; [lia|].
      assert (0 < list_sum l)%nat by (apply IH; exists n; split; assumption). lia.
Qed.

Lemma plain_score_positive (query : jsstring) (c : DocumentChunk) :
  forallb is_plain_word (split_on space (toLowerCase query)) = true ->
  ((0 < plain_score query c)%nat
   <-> exists word, In word (split_on space (toLowerCase query))
                    /\ includes (toLowerCase (content c)) word = true).
Proof.
  intros Hplain. unfold plain_score. rewrite list_sum_positive. split.
  - intros [n [Hin Hn]]. apply in_map_iff in Hin as [word [<- Hword]].
    exists word. split; [exact Hword|].
    apply (count_from_includes word _ O). exact Hn.
  - intros [word [Hword Hinc]].
    exists (count_from O word (toLowerCase (content c))). split.
    + apply in_map_iff. exists word. split; [reflexivity | exact Hword].
    + apply includes_count_from; [|exact Hinc].
      rewrite forallb_forall in Hplain. specialize (Hplain word Hword).
      unfold is_plain_word in Hplain. destruct word; [discriminate | discriminate].
Qed.

(** X8.  Matching is by substring and ignores the case of the letters A-Z:
    for an ASCII query of plain words and at most 5 chunks of ASCII content,
    a chunk is in the result exactly when it is one of the chunks and its
    lower-cased content contains one of the words of the lower-cased query,
    anywhere, also inside a longer word. *)
Theorem findSimilarConcepts_substring_match :
  forall (chunks : list DocumentChunk) (query : jsstring),
    is_ascii query = true ->
    ascii_contents chunks = true ->
    forallb is_plain_word (split_on space (toLowerCase query)) = true ->
    (length chunks <= 5)%nat ->
    exists result,
      findSimilarConcepts chunks query = Some result
      /\ forall c,
           In c result
           <-> In c chunks
               /\ exists word,
                    In word (split_on space (toLowerCase query))
                    /\ includes (toLowerCase (content c)) word = true.
Proof.
  intros chunks query _ _ Hplain Hlen.
  pose proof (plain_words_literal _ Hplain) as Hlit.
  eexists. split; [apply findSimilarConcepts_literal; exact Hlit|].
  intros c.
  set (kept := filter (fun c0 => (0 <? literal_score query c0)%nat) chunks).
  pose proof (stable_sort_perm (literal_score query) kept) as Hperm.
  rewrite firstn_all2.
  2:{ rewrite (Permutation_length Hperm).
      pose proof (filter_length_le (fun c0 => (0 <? literal_score query c0)%nat) chunks)
        as Hle.
      fold kept in Hle. lia. }
  rewrite <- (plain_score_positive query c Hplain).
  rewrite <- (plain_score_literal query c Hplain).
  split.
  - intros Hin. apply (Permutation_in _ Hperm) in Hin.
    unfold kept in Hin. apply filter_In in Hin as [Hin Hpos].
    split; [exact Hin | apply Nat.ltb_lt; exact Hpos].
  - intros [Hin Hpos]. apply (Permutation_in _ (Permutation_sym Hperm)).
    unfold kept. apply filter_In. split; [exact Hin | apply Nat.ltb_lt; exact Hpos].
Qed.

Lemma findSimilarConcepts_substring_match_witness :
  exists result,
    findSimilarConcepts [text_chunk 0 "Concatenate"; text_chunk 1 "dog"] (js "CAT")
    = Some result
    /\ forall c,
         In c result
         <-> In c [text_chunk 0 "Concatenate"; text_chunk 1 "dog"]
             /\ exists word,
                  In word (split_on space (toLowerCase (js "CAT")))
                  /\ includes (toLowerCase (content c)) word = true.
Proof.
  apply (findSimilarConcepts_substring_match
           [text_chunk 0 "Concatenate"; text_chunk 1 "dog"] (js "CAT")).
  - reflexivity.
  - reflexivity.
  - reflexivity.
  - simpl. lia.
Defined.

End RetrievalBounds.

(* ================================================================== *)
(** * Facts about strings *)
(* ================================================================== *)

Section StringFacts.

Lemma take_drop_while (p : N -> bool) (s : jsstring) :
  take_while p s ++ drop_while p s = s.
Proof.
  induction s as [|c s IH]; simpl; [reflexivity|].
  destruct (p c); simpl; [rewrite IH|]; reflexivity.
Qed.

Lemma take_while_all (p : N -> bool) (s : jsstring) :
  forallb p (take_while p s) = true.
Proof.
  induction s as [|c s IH]; simpl; [reflexivity|].
  destruct (p c) eqn:Hc; simpl; [rewrite Hc, IH|]; reflexivity.
Qed.

Lemma drop_while_head (p : N -> bool) (s : jsstring) (c : N) (r : jsstring) :
  drop_while p s = c :: r -> p c = false.
Proof.
  induction s as [|x s IH]; simpl; [discriminate|].
  destruct (p x) eqn:Hx; [exact IH|].
  intros H. injection H as <- _. exact Hx.
Qed.

Lemma drop_while_nil (p : N -> bool) (s : jsstring) :
  drop_while p s = [] -> forallb p s = true.
Proof.
  induction s as [|x s IH]; simpl; [reflexivity|].
  destruct (p x); [exact IH | discriminate].
Qed.

Lemma take_while_app (p : N -> bool) (a b : jsstring) (c : N) :
  forallb p a = true -> p c = false -> take_while p (a ++ c :: b) = a.
Proof.
  intros Ha Hc. induction a as [|x a IH]; simpl in *.
  - rewrite Hc. reflexivity.
  - apply andb_true_iff in Ha as [Hx Ha]. rewrite Hx, IH by exact Ha. reflexivity.
Qed.

Lemma drop_while_app (p : N -> bool) (a b : jsstring) (c : N) :
  forallb p a = true -> p c = false -> drop_while p (a ++ c :: b) = c :: b.
Proof.
  intros Ha Hc. induction a as [|x a IH]; simpl in *.
  - rewrite Hc. reflexivity.
  - apply andb_true_iff in Ha as [Hx Ha]. rewrite Hx. apply IH. exact Ha.
Qed.

Lemma take_while_whole (p : N -> bool) (s : jsstring) :
  forallb p s = true -> take_while p s = s.
Proof.
  induction s as [|x s IH]; simpl; [reflexivity|].
  intros H. apply andb_true_iff in H as [Hx Hs]. rewrite Hx, IH by exact Hs.
  reflexivity.
Qed.

Lemma forallb_rev (p : N -> bool) (s : jsstring) :
  forallb p (rev s) = forallb p s.
Proof.
  induction s as [|x s IH]; simpl; [reflexivity|].
  rewrite forallb_app, IH. simpl. rewrite andb_true_r. apply andb_comm.
Qed.

Lemma split_on_single (sep : N) (l : jsstring) :
  forallb (fun c => negb (N.eqb c sep)) l = true -> split_on sep l = [l].
Proof.
  induction l as [|x l IH]; simpl; [reflexivity|].
  intros H. apply andb_true_iff in H as [Hx Hl].
  apply negb_true_iff in Hx. rewrite Hx, IH by exact Hl. reflexivity.
Qed.

Lemma split_on_app (sep : N) (l t : jsstring) :
  forallb (fun c => negb (N.eqb c sep)) l = true ->
  split_on sep (l ++ sep :: t) = l :: split_on sep t.
Proof.
  induction l as [|x l IH]; simpl.
  - rewrite N.eqb_refl. reflexivity.
  - intros H. apply andb_true_iff in H as [Hx Hl].
    apply negb_true_iff in Hx. rewrite Hx, IH by exact Hl. reflexivity.
Qed.

Lemma split_on_not_nil (sep : N) (s : jsstring) : split_on sep s <> [].
Proof.
  destruct s as [|x s]; simpl; [discriminate|].
  destruct (N.eqb x sep); [discriminate|].
  destruct (split_on sep s); discriminate.
Qed.

(** Lines without a newline, joined and split again, are the same lines. *)
Lemma split_join_lines (l : jsstring) (rest : list jsstring) :
  Forall (fun x => forallb not_newline x = true) (l :: rest) ->
  split_on newline (join_lines (l :: rest)) = l :: rest.
Proof.
  revert l. induction rest as [|r rest IH]; intros l H.
  - simpl. rewrite app_nil_r. apply split_on_single.
    apply Forall_inv in H. exact H.
  - change (join_lines (l :: r :: rest)) with (l ++ newline :: join_lines (r :: rest)).
    rewrite split_on_app by (apply Forall_inv in H; exact H).
    rewrite IH by (apply Forall_inv_tail in H; exact H). reflexivity.
Qed.

Lemma on_line_not_newline (q : jsstring) :
  forallb on_line q = true -> forallb not_newline q = true.
Proof.
  induction q as [|c q IH]; simpl; [reflexivity|].
  intros H. apply andb_true_iff in H as [Hc Hq]. rewrite IH by exact Hq.
  unfold on_line, is_line_terminator in Hc. unfold not_newline, newline.
  destruct (N.eqb c 10); [discriminate Hc | reflexivity].
Qed.

Lemma clean_line_parts (q : jsstring) :
  clean_line q = true ->
  exists c r, q = c :: r /\ is_space c = false
              /\ forallb on_line q = true /\ trim q = q.
Proof.
  unfold clean_line. destruct q as [|c r]; [discriminate|].
  destruct (rev (c :: r)) as [|x t] eqn:Hrev; [discriminate|].
  intros H. apply andb_true_iff in H as [H Hline].
  apply andb_true_iff in H as [Hc Hx].
  apply negb_true_iff in Hc. apply negb_true_iff in Hx.
  exists c, r. repeat split; try assumption.
  unfold trim, trimStart, trimEnd. simpl drop_while at 2. rewrite Hc.
  rewrite Hrev. simpl. rewrite Hx. rewrite <- Hrev. apply rev_involutive.
Qed.

End StringFacts.

(* ================================================================== *)
(** * Further properties of the response parsers *)
(* ================================================================== *)

Section SpanFacts.

Import InsightAnalyzer.

(** X9.  The text handed to [JSON.parse] runs from the first opening brace
    of the response to its last closing brace: the response is a prefix
    without an opening brace, the text, and a suffix without a closing
    brace.  There is no such text exactly when no closing brace follows the
    first opening brace. *)
Theorem json_span_spec :
  forall response : jsstring,
    (forall text,
        json_span response = Some text ->
        exists pre body post,
          response = pre ++ text ++ post
          /\ text = left_brace :: body ++ [right_brace]
          /\ forallb not_left_brace pre = true
          /\ forallb not_right_brace post = true)
    /\ (json_span response = None ->
        forall pre post,
          response = pre ++ left_brace :: post ->
          forallb not_left_brace pre = true ->
          forallb not_right_brace post = true).
Proof.
  intros response. unfold json_span.
  pose proof (take_drop_while not_left_brace response) as Hsplit.
  pose proof (take_while_all not_left_brace response) as Hpre.
  fold not_left_brace. fold not_right_brace.
  destruct (drop_while not_left_brace response) as [|c r] eqn:Hdrop.
  - split; [discriminate|].
    intros _ pre post Heq Hp. exfalso.
    rewrite Heq in Hdrop.
    rewrite (drop_while_app not_left_brace pre post left_brace Hp) in Hdrop.
    + discriminate.
    + unfold not_left_brace. rewrite N.eqb_refl. reflexivity.
  - assert (Hc : c = left_brace).
    { apply drop_while_head in Hdrop. unfold not_left_brace in Hdrop.
      apply negb_false_iff in Hdrop. apply N.eqb_eq in Hdrop. exact Hdrop. }
    subst c.
    pose proof (take_drop_while not_right_brace (rev r)) as Hrsplit.
    pose proof (take_while_all not_right_brace (rev r)) as Hpost.
    destruct (drop_while not_right_brace (rev r)) as [|x t] eqn:Hrdrop.
    + simpl. split; [discriminate|].
      intros _ pre post Heq Hp.
      rewrite Heq in Hdrop.
      rewrite (drop_while_app not_left_brace pre post left_brace Hp) in Hdrop
        by (unfold not_left_brace; rewrite N.eqb_refl; reflexivity).
      injection Hdrop as <-.
      apply drop_while_nil in Hrdrop. rewrite forallb_rev in Hrdrop. exact Hrdrop.
    + assert (Hx : x = right_brace).
      { apply drop_while_head in Hrdrop. unfold not_right_brace in Hrdrop.
        apply negb_false_iff in Hrdrop. apply N.eqb_eq in Hrdrop. exact Hrdrop. }
      subst x. split; [|intros H; exfalso].
      * intros text Htext.
        assert (Hbody : rev (right_brace :: t) = rev t ++ [right_brace]) by reflexivity.
        destruct (rev (right_brace :: t)) as [|b0 body0] eqn:Hrev.
        { destruct (rev t); discriminate Hbody. }
        injection Htext as <-.
        exists (take_while not_left_brace response), (rev t),
          (rev (take_while not_right_brace (rev r))).
        split; [|split; [|split]].
        -- rewrite <- Hsplit at 1. f_equal. simpl. f_equal.
           rewrite <- (rev_involutive r) at 1. rewrite <- Hrsplit at 1.
           rewrite rev_app_distr. rewrite Hrev. reflexivity.
        -- rewrite Hbody. reflexivity.
        -- exact Hpre.
        -- rewrite forallb_rev. exact Hpost.
      * destruct (rev (right_brace :: t)) eqn:Hrev; [|discriminate H].
        simpl in Hrev. destruct (rev t); discriminate Hrev.
Qed.

Lemma json_span_spec_witness :
  exists pre body post,
    js "Here: {x} and } more" = pre ++ js "{x} and }" ++ post
    /\ js "{x} and }" = left_brace :: body ++ [right_brace]
    /\ forallb not_left_brace pre = true
    /\ forallb not_right_brace post = true.
Proof.
  apply (proj1 (json_span_spec (js "Here: {x} and } more")) (js "{x} and }")).
  reflexivity.
Defined.

End SpanFacts.

Section ParserEdges.

Import InsightAnalyzer.

Lemma js_or_truthy (v : option json) (d : json) :
  Json.truthy d = true -> Json.truthy (Json.js_or v d) = true.
Proof.
  intros Hd. unfold Json.js_or. destruct v as [x|]; [|exact Hd].
  destruct (Json.truthy x) eqn:Hx; [exact Hx | exact Hd].
Qed.

(** X10.  No field of a parsed result is ever [null], [false], [0] or the
    empty string: a falsy value in the JSON of the response, such as a
    readability score of 0 or an empty sentiment, is replaced by the default
    of the field just as a missing one is. *)
Theorem parsed_fields_are_truthy :
  forall (E : Type) (JSON_parse : jsstring -> result E json) (response : jsstring),
    exists kr ir,
      parseKeywordResponse JSON_parse response = Ok kr
      /\ parseInsightResponse JSON_parse response = Ok ir
      /\ keyword_fields_truthy kr
      /\ insight_fields_truthy ir.
Proof.
  intros E JSON_parse response.
  unfold parseKeywordResponse, parseInsightResponse,
    keyword_json_attempt, insight_json_attempt.
  destruct (json_span response) as [text|].
  - destruct (JSON_parse text) as [[| b | q | s | items | props] | t]; simpl;
      eexists; eexists;
      (split; [reflexivity|]); (split; [reflexivity|]);
      unfold keyword_fields_truthy, insight_fields_truthy; simpl;
      repeat match goal with
             | |- _ /\ _ => split
             | |- Json.truthy (Json.js_or _ _) = true => apply js_or_truthy
             | |- _ => reflexivity
             end.
  - simpl. eexists; eexists.
    split; [reflexivity|]. split; [reflexivity|].
    unfold keyword_fields_truthy, insight_fields_truthy; simpl.
    repeat split.
Qed.

Lemma list_step_outside (name : jsstring) (lines : list jsstring) :
  (forall line, In line lines ->
                includes (toLowerCase line) (toLowerCase name) = false) ->
  forall items,
    fold_left (list_step name) lines (items, false) = (items, false).
Proof.
  induction lines as [|l lines IH]; intros Hno items; simpl.
  - reflexivity.
  - rewrite (Hno l) by (left; reflexivity).
    apply IH. intros line Hin. apply Hno. right. exact Hin.
Qed.

(** X11.  When no line of an ASCII text mentions the ASCII name of the list,
    the scan never enters the section and returns no item. *)
Theorem extractListFromText_without_heading :
  forall text listName : jsstring,
    is_ascii listName = true ->
    (forall line, In line (split_on newline text) ->
                  is_ascii line = true
                  /\ includes (toLowerCase line) (toLowerCase listName) = false) ->
    extractListFromText text listName = [].
Proof.
  intros text listName _ Hno. unfold extractListFromText.
  rewrite (list_step_outside listName (split_on newline text)
             (fun line Hin => proj2 (Hno line Hin))).
  reflexivity.
Qed.

Lemma extractListFromText_without_heading_witness :
  extractListFromText (join_lines [js "Topics:"; js "- a"; js "- b"]) (js "keywords")
  = [].
Proof.
  apply (extractListFromText_without_heading
           (join_lines [js "Topics:"; js "- a"; js "- b"]) (js "keywords")).
  - reflexivity.
  - intros line [<- | [<- | [<- | []]]]; split; reflexivity.
Defined.

Lemma ws_dot_plus_clean (q : jsstring) :
  clean_line q = true -> ws_dot_plus (space :: q) = Some q.
Proof.
  intros Hq. destruct (clean_line_parts q Hq) as (c & r & -> & Hc & Hline & _).
  change (ws_dot_plus (space :: c :: r))
    with (match ws_dot_plus (c :: r) with
          | Some cap => Some cap
          | None => dot_plus (space :: c :: r)
          end).
  assert (Hdot : ws_dot_plus (c :: r) = Some (c :: r)).
  { simpl ws_dot_plus. rewrite Hc. unfold dot_plus.
    fold on_line. rewrite (take_while_whole on_line (c :: r) Hline). reflexivity. }
  rewrite Hdot. reflexivity.
Qed.

Lemma match_item_bullet (q : jsstring) :
  clean_line q = true -> match_item (bullet_line q) = Some q.
Proof.
  intros Hq. unfold bullet_line.
  change (js "- " ++ q) with (hyphen :: space :: q).
  change (match_item (hyphen :: space :: q))
    with (match ws_dot_plus (space :: q) with
          | Some cap => Some cap
          | None => match_item (space :: q)
          end).
  rewrite (ws_dot_plus_clean q Hq). reflexivity.
Qed.

Lemma list_step_bullet (name q : jsstring) (acc : list jsstring) :
  clean_line q = true ->
  includes (toLowerCase (bullet_line q)) (toLowerCase name) = false ->
  list_step name (acc, true) (bullet_line q) = (acc ++ [q], true).
Proof.
  intros Hq Hno. unfold list_step. rewrite Hno, (match_item_bullet q Hq).
  destruct (clean_line_parts q Hq) as (_ & _ & _ & _ & _ & Htrim).
  rewrite Htrim. reflexivity.
Qed.

Lemma list_step_heading (name heading : jsstring) (st : list jsstring * bool) :
  includes (toLowerCase heading) (toLowerCase name) = true ->
  list_step name st heading = (fst st, true).
Proof.
  intros Hhead. unfold list_step. destruct st as [items inSection].
  rewrite Hhead. reflexivity.
Qed.

Lemma list_step_bullets (name : jsstring) (items : list jsstring) :
  Forall (fun q => clean_line q = true
                   /\ includes (toLowerCase (bullet_line q)) (toLowerCase name) = false)
    items ->
  forall acc,
    fold_left (list_step name) (map bullet_line items) (acc, true)
    = (acc ++ items, true).
Proof.
  induction items as [|q items IH]; intros H acc.
  - simpl. rewrite app_nil_r. reflexivity.
  - apply Forall_cons_iff in H as [[Hq Hno] Hrest].
    cbn [map fold_left]. rewrite (list_step_bullet name q acc Hq Hno).
    rewrite (IH Hrest), <- app_assoc. reflexivity.
Qed.

(** X12.  A bulleted list under its heading is read back as written: for an
    ASCII heading line that mentions the ASCII name of the list, followed by
    lines "- item" whose items are ASCII, stand on one line, have no white
    space at either end and do not mention the name, the scan returns the
    items in order. *)
Theorem extractListFromText_reads_bullets :
  forall (heading listName : jsstring) (items : list jsstring),
    is_ascii listName = true ->
    is_ascii heading = true ->
    forallb not_newline heading = true ->
    includes (toLowerCase heading) (toLowerCase listName) = true ->
    Forall (fun q => is_ascii q = true
                     /\ clean_line q = true
                     /\ includes (toLowerCase (bullet_line q)) (toLowerCase listName)
                        = false)
      items ->
    extractListFromText (join_lines (heading :: map bullet_line items)) listName
    = items.
Proof.
  intros heading listName items _ _ Hnl Hhead Hascii.
  assert (Hitems : Forall (fun q => clean_line q = true
                                    /\ includes (toLowerCase (bullet_line q))
                                         (toLowerCase listName) = false) items)
    by (eapply Forall_impl; [|exact Hascii]; intros q H; apply H).
  unfold extractListFromText.
  rewrite split_join_lines.
  - cbn [fold_left]. rewrite (list_step_heading listName heading _ Hhead).
    cbn [fst]. rewrite (list_step_bullets listName items Hitems). reflexivity.
  - constructor; [exact Hnl|].
    apply Forall_forall. intros line Hin.
    apply in_map_iff in Hin as [q [<- Hq]].
    rewrite Forall_forall in Hitems. destruct (Hitems q Hq) as [Hclean _].
    destruct (clean_line_parts q Hclean) as (_ & _ & _ & _ & Hline & _).
    unfold bullet_line. rewrite forallb_app.
    rewrite (on_line_not_newline q Hline). reflexivity.
Qed.

Lemma extractListFromText_reads_bullets_witness :
  extractListFromText
    (join_lines (js "Keywords:" :: map bullet_line [js "foo"; js "bar baz"]))
    (js "keywords")
  = [js "foo"; js "bar baz"].
Proof.
  apply (extractListFromText_reads_bullets (js "Keywords:") (js "keywords")
           [js "foo"; js "bar baz"]).
  - reflexivity.
  - reflexivity.
  - reflexivity.
  - reflexivity.
  - repeat constructor.
Defined.

Lemma match_question_numbered (ds q : jsstring) :
  ds <> [] -> forallb is_digit ds = true -> clean_line q = true ->
  match_question (numbered_line (ds, q)) = Some q.
Proof.
  intros Hne Hds Hq. unfold match_question, after_number, numbered_line. simpl fst.
  simpl snd. change (js ". " ++ q) with (full_stop :: space :: q).
  rewrite (take_while_app is_digit ds (space :: q) full_stop Hds eq_refl).
  rewrite (drop_while_app is_digit ds (space :: q) full_stop Hds eq_refl).
  destruct ds; [congruence|].
  rewrite N.eqb_refl. apply ws_dot_plus_clean. exact Hq.
Qed.

Lemma parseQuestions_fold (items : list (jsstring * jsstring)) :
  Forall (fun item => fst item <> [] /\ forallb is_digit (fst item) = true
                      /\ clean_line (snd item) = true) items ->
  forall acc,
    fold_left
      (fun questions line =>
         match match_question line with
         | Some group => questions ++ [trim group]
         | None => questions
         end)
      (map numbered_line items) acc
    = acc ++ map snd items.
Proof.
  induction items as [|[ds q] items IH]; intros H acc; simpl.
  - rewrite app_nil_r. reflexivity.
  - apply Forall_cons_iff in H as [(Hne & Hds & Hq) Hrest]. simpl in Hne, Hds, Hq.
    rewrite (match_question_numbered ds q Hne Hds Hq).
    destruct (clean_line_parts q Hq) as (_ & _ & _ & _ & _ & Htrim).
    rewrite Htrim, (IH Hrest), <- app_assoc. reflexivity.
Qed.

(** X13.  A numbered list is read back as written: for lines made of
    digits, a full stop, a space and a question that stands on one line
    without white space at either end, [parseQuestions] returns the
    questions in order, whatever the numbers are. *)
Theorem parseQuestions_reads_numbered_list :
  forall items : list (jsstring * jsstring),
    Forall (fun item => fst item <> [] /\ forallb is_digit (fst item) = true
                        /\ clean_line (snd item) = true) items ->
    parseQuestions (join_lines (map numbered_line items)) = map snd items.
Proof.
  intros items H. unfold parseQuestions.
  destruct items as [|item items]; [reflexivity|].
  change (map numbered_line (item :: items))
    with (numbered_line item :: map numbered_line items).
  rewrite split_join_lines.
  - change (numbered_line item :: map numbered_line items)
      with (map numbered_line (item :: items)).
    rewrite (parseQuestions_fold (item :: items) H). reflexivity.
  - change (numbered_line item :: map numbered_line items)
      with (map numbered_line (item :: items)).
    apply Forall_forall. intros line Hin.
    apply in_map_iff in Hin as [[ds q] [<- Hq]].
    rewrite Forall_forall in H. destruct (H (ds, q) Hq) as (_ & Hds & Hclean).
    simpl in Hds, Hclean.
    destruct (clean_line_parts q Hclean) as (_ & _ & _ & _ & Hline & _).
    assert (Hnl : forallb not_newline ds = true).
    { clear -Hds. induction ds as [|d ds IH]; simpl in *; [reflexivity|].
      apply andb_true_iff in Hds as [Hd Hds]. rewrite (IH Hds), andb_true_r.
      unfold is_digit, in_range in Hd. unfold not_newline, newline.
      apply andb_true_iff in Hd as [Hlo _]. apply N.leb_le in Hlo.
      apply negb_true_iff. apply N.eqb_neq. lia. }
    unfold numbered_line. cbn [fst snd]. rewrite !forallb_app.
    rewrite Hnl, (on_line_not_newline q Hline). reflexivity.
Qed.

Lemma parseQuestions_reads_numbered_list_witness :
  parseQuestions
    (join_lines (map numbered_line [(js "1", js "What?"); (js "12", js "Why so?")]))
  = [js "What?"; js "Why so?"].
Proof.
  apply (parseQuestions_reads_numbered_list
           [(js "1", js "What?"); (js "12", js "Why so?")]).
  repeat constructor; discriminate.
Defined.

End ParserEdges.

(* ================================================================== *)
(** * Further properties of the provider calls *)
(* ================================================================== *)

Section ProviderOutcomes.

Import InsightAnalyzer SummaryAnalyzer.

Context {E : Type} (describe : E -> jsstring).
Context (JSON_parse : jsstring -> result E json).
Context (groq_invoke openai_invoke : prompt -> result E jsstring).
Context (config : Config.AppConfig).

Lemma ask_bind {A : Type} (p : prompt) (k : jsstring -> result E A) :
  (llm <- ModelManager.getLLM groq_invoke openai_invoke config ;;
   response <- llm p ;; k response)
  = (response <- ask groq_invoke openai_invoke config p ;; k response).
Proof.
  unfold ask. destruct (ModelManager.getLLM groq_invoke openai_invoke config);
    reflexivity.
Qed.

(** X14.  The three operations of [InsightAnalyzer] never throw, whatever
    the language model and [JSON.parse] do: when the model answers, the
    result is the parse of its answer; when anything fails, it is the
    default of the operation. *)
Theorem insight_operations_never_throw :
  forall document : Document,
    (exists r,
        extractKeywords JSON_parse groq_invoke openai_invoke config document = Ok r
        /\ match ask groq_invoke openai_invoke config (KeywordPrompt (substring0 (doc_content document) 2000)) with
           | Ok response => parseKeywordResponse JSON_parse response = Ok r
           | Throw _ => r = empty_keywords
           end)
    /\ (exists r,
          analyzeInsights JSON_parse groq_invoke openai_invoke config document = Ok r
          /\ match ask groq_invoke openai_invoke config (InsightPrompt (substring0 (doc_content document) 2500)) with
             | Ok response => parseInsightResponse JSON_parse response = Ok r
             | Throw _ => r = default_insights
             end)
    /\ (exists r,
          generateQuestions groq_invoke openai_invoke config document = Ok r
          /\ match ask groq_invoke openai_invoke config (QuestionsPrompt (substring0 (doc_content document) 1500)) with
             | Ok response => r = parseQuestions response
             | Throw _ => r = []
             end).
Proof.
  intros document. split; [|split].
  - unfold extractKeywords. rewrite ask_bind.
    destruct (ask groq_invoke openai_invoke config (KeywordPrompt (substring0 (doc_content document) 2000)))
      as [response|t]; simpl.
    + destruct (parseKeywordResponse_total JSON_parse response) as [r Hr].
      exists r. rewrite Hr. split; reflexivity.
    + exists empty_keywords. split; reflexivity.
  - unfold analyzeInsights. rewrite ask_bind.
    destruct (ask groq_invoke openai_invoke config (InsightPrompt (substring0 (doc_content document) 2500)))
      as [response|t]; simpl.
    + destruct (parseInsightResponse_total JSON_parse response) as [r Hr].
      exists r. rewrite Hr. split; reflexivity.
    + exists default_insights. split; reflexivity.
  - unfold generateQuestions. rewrite ask_bind.
    destruct (ask groq_invoke openai_invoke config (QuestionsPrompt (substring0 (doc_content document) 1500)))
      as [response|t]; simpl.
    + exists (parseQuestions response). split; reflexivity.
    + exists []. split; reflexivity.
Qed.

(** X15.  [summarizeDocument] and [generateAbstract] return exactly when the
    language model answers, with the parse (the trimmed text) of the answer;
    otherwise they throw, and what they throw is never the failure itself
    but a new error whose message starts with "Failed to generate summary: "
    or "Failed to generate abstract: ". *)
Theorem summary_operations_outcomes :
  forall (document : Document) (options : SummaryOptions),
    match ask groq_invoke openai_invoke config (buildSummaryPrompt (doc_content document)
                 (option_default (opt_maxLength options) 500)
                 (option_default (opt_style options) Paragraph)
                 (option_default (opt_focus options)
                    (js "main concepts and important details"))) with
    | Ok response =>
        summarizeDocument describe groq_invoke openai_invoke config document options
        = Ok (parseSummaryResponse response)
    | Throw t =>
        summarizeDocument describe groq_invoke openai_invoke config document options
        = Throw (NewError (js "Failed to generate summary: " ++ error_text describe t))
    end
    /\ match ask groq_invoke openai_invoke config (AbstractPrompt (substring0 (doc_content document) 2000)) with
       | Ok response =>
           generateAbstract describe groq_invoke openai_invoke config document
           = Ok (trim response)
       | Throw t =>
           generateAbstract describe groq_invoke openai_invoke config document
           = Throw (NewError (js "Failed to generate abstract: "
                              ++ error_text describe t))
       end.
Proof.
  intros document options. split.
  - unfold summarizeDocument. rewrite ask_bind.
    destruct (ask groq_invoke openai_invoke config _) as [response|t]; reflexivity.
  - unfold generateAbstract. rewrite ask_bind.
    destruct (ask groq_invoke openai_invoke config _) as [response|t]; reflexivity.
Qed.

(** X16.  The analyses send the provider the head of a document only: when
    the content of [d1] agrees with that of [d2] on the first 3000 code
    units, the one call that each operation makes for [d1] carries the very
    prompt built from the content of [d2] (2000 code units for the keywords
    and the abstract, 2500 for the insights, 1500 for the questions, 3000
    for the summary), and the result is made of the answer to that prompt.
    Identifier, metadata and the rest of the content reach no prompt. *)
Theorem analyses_read_a_prefix :
  forall (d1 d2 : Document) (options : SummaryOptions),
    firstn 3000 (doc_content d1) = firstn 3000 (doc_content d2) ->
    extractKeywords JSON_parse groq_invoke openai_invoke config d1
    = try_catch
        (response <- ask groq_invoke openai_invoke config
                       (KeywordPrompt (firstn 2000 (doc_content d2))) ;;
         parseKeywordResponse JSON_parse response)
        (fun _ => Ok empty_keywords)
    /\ analyzeInsights JSON_parse groq_invoke openai_invoke config d1
       = try_catch
           (response <- ask groq_invoke openai_invoke config
                          (InsightPrompt (firstn 2500 (doc_content d2))) ;;
            parseInsightResponse JSON_parse response)
           (fun _ => Ok default_insights)
    /\ generateQuestions groq_invoke openai_invoke config d1
       = try_catch
           (response <- ask groq_invoke openai_invoke config
                          (QuestionsPrompt (firstn 1500 (doc_content d2))) ;;
            Ok (parseQuestions response))
           (fun _ => Ok [])
    /\ summarizeDocument describe groq_invoke openai_invoke config d1 options
       = try_catch
           (response <- ask groq_invoke openai_invoke config
                          (SummaryPrompt
                             (option_default (opt_maxLength options) 500)
                             (styleInstructions
                                (option_default (opt_style options) Paragraph))
                             (option_default (opt_focus options)
                                (js "main concepts and important details"))
                             (firstn 3000 (doc_content d2))) ;;
            Ok (parseSummaryResponse response))
           (fun error =>
              Throw (NewError (js "Failed to generate summary: "
                               ++ error_text describe error)))
    /\ generateAbstract describe groq_invoke openai_invoke config d1
       = try_catch
           (response <- ask groq_invoke openai_invoke config
                          (AbstractPrompt (firstn 2000 (doc_content d2))) ;;
            Ok (trim response))
           (fun error =>
              Throw (NewError (js "Failed to generate abstract: "
                               ++ error_text describe error))).
Proof.
  intros d1 d2 options Hhead.
  assert (Hcut : forall n, (n <= 3000)%nat ->
                           firstn n (doc_content d1) = firstn n (doc_content d2)).
  { intros n Hn.
    rewrite <- (Nat.min_l n 3000 Hn), <- !firstn_firstn, Hhead. reflexivity. }
  unfold extractKeywords, analyzeInsights, generateQuestions, summarizeDocument,
    generateAbstract, buildSummaryPrompt, substring0.
  rewrite !ask_bind.
  rewrite (Hcut 2000%nat), (Hcut 2500%nat), (Hcut 1500%nat), Hhead by lia.
  repeat match goal with |- _ /\ _ => split end; reflexivity.
Qed.

End ProviderOutcomes.

Lemma analyses_read_a_prefix_witness :
  InsightAnalyzer.generateQuestions echo_client echo_client
    (sample_config 1000 200) (long_document "2. What?")
  = Ok [js "Why?"].
Proof.
  destruct (analyses_read_a_prefix describe_failure parse_empty_object echo_client
              echo_client (sample_config 1000 200)
              (long_document "2. What?") (long_document "2. How?")
              default_options eq_refl)
    as (_ & _ & Hquestions & _).
  rewrite Hquestions. reflexivity.
Defined.

Section ConfigFacts.

Context {E : Type} (groq_invoke openai_invoke : prompt -> result E jsstring).

(** X17.  A configuration that gives a language model passes
    [validateConfig], but not the other way round: [getLLM] takes Groq when
    its key is set, else OpenAI when its key is set, and with a HuggingFace
    key alone the configuration is valid while [getLLM] throws. *)
Theorem getLLM_and_validateConfig :
  forall config : Config.AppConfig,
    (forall llm,
        ModelManager.getLLM groq_invoke openai_invoke config = Ok llm ->
        Config.validateConfig config = true)
    /\ (Config.groq_apiKey config <> [] ->
        ModelManager.getLLM groq_invoke openai_invoke config = Ok groq_invoke)
    /\ (Config.groq_apiKey config = [] -> Config.openai_apiKey config <> [] ->
        ModelManager.getLLM groq_invoke openai_invoke config = Ok openai_invoke)
    /\ (Config.groq_apiKey config = [] -> Config.openai_apiKey config = [] ->
        Config.huggingface_apiKey config <> [] ->
        Config.validateConfig config = true
        /\ exists message,
             ModelManager.getLLM groq_invoke openai_invoke config
             = Throw (NewError message)).
Proof.
  intros config. unfold ModelManager.getLLM, Config.validateConfig.
  destruct (Config.groq_apiKey config) as [|g gs];
    destruct (Config.openai_apiKey config) as [|o os];
    destruct (Config.huggingface_apiKey config) as [|h hs]; simpl;
    repeat split; intros; try congruence; try discriminate; eauto.
Qed.

End ConfigFacts.

Lemma getLLM_and_validateConfig_witness :
  Config.validateConfig
    {| Config.openai_apiKey := []; Config.groq_apiKey := [];
       Config.huggingface_apiKey := js "hf"; Config.chunkSize := 1000;
       Config.chunkOverlap := 200; Config.maxResults := 5 |} = true
  /\ exists message,
       ModelManager.getLLM failing_client failing_client
         {| Config.openai_apiKey := []; Config.groq_apiKey := [];
            Config.huggingface_apiKey := js "hf"; Config.chunkSize := 1000;
            Config.chunkOverlap := 200; Config.maxResults := 5 |}
       = Throw (NewError message).
Proof.
  apply (getLLM_and_validateConfig failing_client failing_client
           {| Config.openai_apiKey := []; Config.groq_apiKey := [];
              Config.huggingface_apiKey := js "hf"; Config.chunkSize := 1000;
              Config.chunkOverlap := 200; Config.maxResults := 5 |}).
  - reflexivity.
  - reflexivity.
  - discriminate.
Defined.

(* ================================================================== *)
(** * Further properties of the summary parser *)
(* ================================================================== *)

Section SummaryEdges.

Import SummaryAnalyzer.

Lemma summary_step_without_heading (st : parse_state) (line : jsstring) :
  is_heading line = false ->
  st_section st = InSummary -> st_keyPoints st = [] ->
  st_section (summary_step st line) = InSummary
  /\ st_keyPoints (summary_step st line) = [].
Proof.
  unfold is_heading, summary_step. intros -> Hsec Hkp.
  destruct (includes (toLowerCase line) (js "confidence")).
  - destruct (first_digits line); simpl; split; assumption.
  - rewrite Hsec. simpl. split; [reflexivity | exact Hkp].
Qed.

Lemma summary_fold_without_heading (lines : list jsstring) :
  (forall line, In line lines -> is_heading line = false) ->
  forall st,
    st_section st = InSummary -> st_keyPoints st = [] ->
    st_keyPoints (fold_left summary_step lines st) = [].
Proof.
  induction lines as [|l lines IH]; intros Hno st Hsec Hkp; simpl.
  - exact Hkp.
  - destruct (summary_step_without_heading st l (Hno l (or_introl eq_refl)) Hsec Hkp)
      as [Hsec' Hkp'].
    apply IH; [|exact Hsec' | exact Hkp'].
    intros line Hin. apply Hno. right. exact Hin.
Qed.

(** X18.  Key points are collected only behind a heading: when the lines of
    the response are ASCII and none mentions "key points" or "main points",
    in any case of the letters, the result has no key point, whatever
    bullets and numbers the response holds. *)
Theorem parseSummaryResponse_needs_heading :
  forall response : jsstring,
    (forall line, In line (summary_lines response) ->
                  is_ascii line = true /\ is_heading line = false) ->
    keyPoints (parseSummaryResponse response) = [].
Proof.
  intros response Hno. simpl. unfold summary_loop.
  apply summary_fold_without_heading;
    [intros line Hin; apply (Hno line Hin) | reflexivity | reflexivity].
Qed.

Lemma parseSummaryResponse_needs_heading_witness :
  keyPoints (parseSummaryResponse (join_lines [js "Summary"; js "1. one"; js "- two"]))
  = [].
Proof.
  apply (parseSummaryResponse_needs_heading
           (join_lines [js "Summary"; js "1. one"; js "- two"])).
  intros line [<- | [<- | [<- | []]]]; split; reflexivity.
Defined.

Lemma split_on_length (sep : N) (s : jsstring) :
  length (split_on sep s) = S (length (filter (N.eqb sep) s)).
Proof.
  induction s as [|x s IH]; simpl; [reflexivity|].
  rewrite (N.eqb_sym sep x).
  destruct (N.eqb x sep); simpl.
  - rewrite IH. reflexivity.
  - destruct (split_on sep s) as [|h t] eqn:Hs.
    + exfalso. apply (split_on_not_nil sep s). exact Hs.
    + simpl in *. exact IH.
Qed.

(** X19.  The word count of a parsed summary is one more than the number of
    spaces in the summary text before trimming, in which every line is
    followed by a space: it is never 0, and a response without text gives an
    empty summary, no key point, confidence 8 and the word count 1. *)
Theorem parseSummaryResponse_word_count :
  forall response : jsstring,
    summary_wordCount (parseSummaryResponse response)
    = 1 + Z.of_nat (length (filter (N.eqb space)
                              (st_summary (summary_loop response))))
    /\ 1 <= summary_wordCount (parseSummaryResponse response)
    /\ (summary_lines response = [] ->
        parseSummaryResponse response
        = {| summary := []; keyPoints := []; summary_wordCount := 1;
             confidence := 8 |}).
Proof.
  intros response. split; [|split].
  - unfold parseSummaryResponse. cbn [summary_wordCount].
    rewrite split_on_length. lia.
  - unfold parseSummaryResponse. cbn [summary_wordCount].
    rewrite split_on_length. lia.
  - intros Hnone. unfold parseSummaryResponse, summary_loop. rewrite Hnone.
    reflexivity.
Qed.

Lemma parseSummaryResponse_word_count_witness :
  parseSummaryResponse (join_lines [js "  "; js ""])
  = {| summary := []; keyPoints := []; summary_wordCount := 1; confidence := 8 |}.
Proof.
  apply (proj2 (proj2 (parseSummaryResponse_word_count
                         (join_lines [js "  "; js ""])))).
  reflexivity.
Defined.

End SummaryEdges.

(* ================================================================== *)
(** * Properties of the document store *)
(* ================================================================== *)

Section StoreFacts.

Import DocumentStore.

Lemma startsWith_same_length (a : jsstring) :
  forall b : jsstring, length a = length b -> startsWith a b = true -> a = b.
Proof.
  induction a as [|x a IH]; intros [|y b] Hlen H; simpl in *;
    try discriminate; [reflexivity|].
  apply andb_true_iff in H as [Hxy Hab]. apply N.eqb_eq in Hxy. subst y.
  f_equal. apply IH; [lia | exact Hab].
Qed.

Lemma jsstring_eqb_eq (a b : jsstring) : jsstring_eqb a b = true <-> a = b.
Proof.
  unfold jsstring_eqb. split.
  - intros H. apply andb_true_iff in H as [Hlen Hsw]. apply Nat.eqb_eq in Hlen.
    apply startsWith_same_length; assumption.
  - intros <-. rewrite Nat.eqb_refl. simpl.
    induction a as [|x a IH]; simpl; [reflexivity|].
    rewrite N.eqb_refl, IH. reflexivity.
Qed.

Lemma jsstring_eqb_refl (a : jsstring) : jsstring_eqb a a = true.
Proof. apply jsstring_eqb_eq. reflexivity. Qed.

Lemma jsstring_eqb_neq (a b : jsstring) : a <> b -> jsstring_eqb a b = false.
Proof.
  intros Hne. destruct (jsstring_eqb a b) eqn:H; [|reflexivity].
  apply jsstring_eqb_eq in H. contradiction.
Qed.

Lemma map_get_set_same {V : Type} (key : jsstring) (v : V) (m : list (jsstring * V)) :
  map_get key (map_set key v m) = Some v.
Proof.
  induction m as [|[k x] m IH]; simpl.
  - rewrite jsstring_eqb_refl. reflexivity.
  - destruct (jsstring_eqb k key) eqn:Hk; simpl; rewrite Hk; [reflexivity | exact IH].
Qed.

Lemma map_get_set_other {V : Type} (key key' : jsstring) (v : V)
    (m : list (jsstring * V)) :
  key' <> key -> map_get key' (map_set key v m) = map_get key' m.
Proof.
  intros Hne. induction m as [|[k x] m IH]; simpl.
  - rewrite (jsstring_eqb_neq key key') by congruence. reflexivity.
  - destruct (jsstring_eqb k key) eqn:Hk; simpl.
    + apply jsstring_eqb_eq in Hk. subst k.
      rewrite (jsstring_eqb_neq key key') by congruence. reflexivity.
    + destruct (jsstring_eqb k key'); [reflexivity | exact IH].
Qed.

Lemma map_get_none_keys {V : Type} (key : jsstring) (m : list (jsstring * V)) :
  map_get key m = None <-> ~ In key (map fst m).
Proof.
  induction m as [|[k x] m IH]; simpl.
  - split; [intros _ [] | reflexivity].
  - destruct (jsstring_eqb k key) eqn:Hk.
    + apply jsstring_eqb_eq in Hk. split; [discriminate | intros H; exfalso; auto].
    + rewrite IH. split.
      * intros Hn [Heq | Hin]; [|contradiction].
        subst k. rewrite jsstring_eqb_refl in Hk. discriminate.
      * intros Hn Hin. apply Hn. right. exact Hin.
Qed.

Lemma map_set_fresh {V : Type} (key : jsstring) (v : V) (m : list (jsstring * V)) :
  map_get key m = None -> map_set key v m = m ++ [(key, v)].
Proof.
  induction m as [|[k x] m IH]; simpl; [reflexivity|].
  destruct (jsstring_eqb k key); [discriminate|].
  intros H. rewrite (IH H). reflexivity.
Qed.

Lemma map_set_present {V : Type} (key : jsstring) (v old : V)
    (m : list (jsstring * V)) :
  map_get key m = Some old -> map fst (map_set key v m) = map fst m.
Proof.
  induction m as [|[k x] m IH]; simpl; [discriminate|].
  destruct (jsstring_eqb k key); simpl; [reflexivity|].
  intros H. rewrite (IH H). reflexivity.
Qed.

Lemma map_set_twice {V : Type} (key : jsstring) (v1 v2 : V)
    (m : list (jsstring * V)) :
  map_set key v2 (map_set key v1 m) = map_set key v2 m.
Proof.
  induction m as [|[k x] m IH]; simpl.
  - rewrite jsstring_eqb_refl. reflexivity.
  - destruct (jsstring_eqb k key) eqn:Hk; simpl; rewrite Hk; [reflexivity|].
    rewrite IH. reflexivity.
Qed.

(** X20.  A document that is added is found under its identifier, the
    documents under other identifiers and all chunks stay as they were; a new
    identifier puts the document at the end of the listing, a known one
    replaces the document where it stands. *)
Theorem addDocument_then_getDocument :
  forall (s : store) (d : Document),
    getDocument (addDocument s d) (doc_id d) = Some d
    /\ (forall id, id <> doc_id d ->
                   getDocument (addDocument s d) id = getDocument s id)
    /\ (forall id, getChunks (addDocument s d) id = getChunks s id)
    /\ match getDocument s (doc_id d) with
       | None => getAllDocuments (addDocument s d) = getAllDocuments s ++ [d]
       | Some _ =>
           length (getAllDocuments (addDocument s d)) = length (getAllDocuments s)
       end.
Proof.
  intros s d. unfold getDocument, addDocument, getAllDocuments, getChunks, map_values.
  simpl. split; [|split; [|split]].
  - apply map_get_set_same.
  - intros id Hne. apply map_get_set_other. exact Hne.
  - reflexivity.
  - destruct (map_get (doc_id d) (store_documents s)) as [old|] eqn:Hget.
    + rewrite !length_map. rewrite <- (length_map fst), <- (length_map fst (store_documents s)).
      rewrite (map_set_present _ d old _ Hget). reflexivity.
    + rewrite (map_set_fresh _ d _ Hget), map_app. reflexivity.
Qed.

(** X21.  Chunks that are added for a document are what [getChunks] gives
    for it, the chunks of other documents stay, adding again replaces rather
    than appends, a document without chunks has the empty list, and for a
    new document the chunks go to the end of [getAllChunks]. *)
Theorem addChunks_then_getChunks :
  forall (s : store) (id : jsstring) (cs cs' : list DocumentChunk),
    getChunks (addChunks s id cs) id = cs
    /\ (forall id', id' <> id -> getChunks (addChunks s id cs) id' = getChunks s id')
    /\ addChunks (addChunks s id cs) id cs' = addChunks s id cs'
    /\ getChunks empty id = []
    /\ (~ In id (map fst (store_chunks s)) ->
        getAllChunks (addChunks s id cs) = getAllChunks s ++ cs).
Proof.
  intros s id cs cs'. unfold getChunks, addChunks, getAllChunks, map_values. simpl.
  split; [|split; [|split; [|split]]].
  - rewrite map_get_set_same. reflexivity.
  - intros id' Hne. rewrite map_get_set_other by exact Hne. reflexivity.
  - rewrite map_set_twice. reflexivity.
  - reflexivity.
  - intros Hnew. apply map_get_none_keys in Hnew.
    rewrite (map_set_fresh _ cs _ Hnew), map_app, concat_app. simpl.
    rewrite app_nil_r. reflexivity.
Qed.

Lemma map_set_filed (d : Document) (m : list (jsstring * Document)) :
  filed_by_id m -> filed_by_id (map_set (doc_id d) d m).
Proof.
  intros [Hnd Hid]. destruct (map_get (doc_id d) m) as [old|] eqn:Hget.
  - split.
    + rewrite (map_set_present _ d old _ Hget). exact Hnd.
    + clear Hnd Hget. induction m as [|[k x] m IH]; simpl.
      * constructor; [reflexivity | constructor].
      * apply Forall_cons_iff in Hid as [Hk Hm].
        destruct (jsstring_eqb k (doc_id d)) eqn:Hkd.
        -- apply jsstring_eqb_eq in Hkd. constructor; [exact Hkd | exact Hm].
        -- constructor; [exact Hk | apply IH; exact Hm].
  - rewrite (map_set_fresh _ d _ Hget). split.
    + rewrite map_app. simpl. apply map_get_none_keys in Hget.
      assert (Hperm : Permutation (doc_id d :: map fst m) (map fst m ++ [doc_id d]))
        by apply Permutation_cons_append.
      apply (Permutation_NoDup Hperm). constructor; assumption.
    + apply Forall_app. split; [exact Hid|]. constructor; [reflexivity | constructor].
Qed.

Lemma built_filed (s : store) : built s -> filed_by_id (store_documents s).
Proof.
  induction 1 as [|s d _ IH| |]; simpl.
  - split; constructor.
  - apply map_set_filed. exact IH.
  - assumption.
  - split; constructor.
Qed.

Lemma map_get_in {V : Type} (m : list (jsstring * V)) :
  NoDup (map fst m) ->
  forall k v, In (k, v) m -> map_get k m = Some v.
Proof.
  induction m as [|[k0 v0] m IH]; intros Hnd k v Hin; simpl in *; [contradiction|].
  apply NoDup_cons_iff in Hnd as [Hnot Hnd].
  destruct Hin as [Heq | Hin].
  - injection Heq as -> ->. rewrite jsstring_eqb_refl. reflexivity.
  - destruct (jsstring_eqb k0 k) eqn:Hk.
    + apply jsstring_eqb_eq in Hk. subst k0. exfalso. apply Hnot.
      apply (in_map fst) in Hin. exact Hin.
    + apply IH; assumption.
Qed.

(** X22.  In a store built from the empty one by its operations, no two
    listed documents share an identifier, and every listed document is the
    one found under its identifier. *)
Theorem built_store_is_keyed_by_id :
  forall s : store,
    built s ->
    NoDup (map doc_id (getAllDocuments s))
    /\ (forall d, In d (getAllDocuments s) -> getDocument s (doc_id d) = Some d).
Proof.
  intros s Hs. destruct (built_filed s Hs) as [Hnd Hid].
  unfold getAllDocuments, getDocument, map_values.
  assert (Hkeys : map doc_id (map snd (store_documents s))
                  = map fst (store_documents s)).
  { clear Hnd. induction (store_documents s) as [|[k x] m IH]; simpl; [reflexivity|].
    apply Forall_cons_iff in Hid as [Hk Hm]. simpl in Hk.
    rewrite (IH Hm), Hk. reflexivity. }
  split.
  - rewrite Hkeys. exact Hnd.
  - intros d Hin. apply in_map_iff in Hin as [[k x] [Hx Hin]]. simpl in Hx. subst x.
    rewrite Forall_forall in Hid. pose proof (Hid (k, d) Hin) as Hk. simpl in Hk.
    rewrite <- Hk. apply map_get_in; assumption.
Qed.

Lemma built_store_is_keyed_by_id_witness :
  NoDup (map doc_id
           (getAllDocuments (addDocument (addDocument empty sample_document)
                               sample_document))).
Proof.
  apply (built_store_is_keyed_by_id
           (addDocument (addDocument empty sample_document) sample_document)).
  apply built_addDocument. apply built_addDocument. apply built_empty.
Defined.

Lemma includes_empty (s : jsstring) : includes s [] = true.
Proof. destruct s; reflexivity. Qed.

Lemma startsWith_refl (s : jsstring) : startsWith s s = true.
Proof.
  induction s as [|x s IH]; simpl; [reflexivity|].
  rewrite N.eqb_refl, IH. reflexivity.
Qed.

Lemma includes_refl (s : jsstring) : includes s s = true.
Proof.
  destruct s as [|x s]; [reflexivity|].
  rewrite includes_cons, startsWith_refl. reflexivity.
Qed.

Lemma startsWith_prefix (p s : jsstring) :
  startsWith s p = true <-> exists after : jsstring, s = p ++ after.
Proof.
  revert s. induction p as [|a p IH]; intros s.
  - split; [intros _; exists s; reflexivity | intros _; destruct s; reflexivity].
  - destruct s as [|b s]; simpl.
    + split; [discriminate | intros [after H]; discriminate H].
    + rewrite andb_true_iff, N.eqb_eq, IH. split.
      * intros [-> [after ->]]. exists after. reflexivity.
      * intros [after H]. injection H as -> ->. split; [reflexivity|].
        exists after. reflexivity.
Qed.

Lemma includes_occurs (word text : jsstring) :
  includes text word = true <-> occurs_in word text.
Proof.
  unfold occurs_in. induction text as [|x text IH].
  - cbn [includes]. rewrite orb_false_r, startsWith_prefix. split.
    + intros [after H]. exists [], after. exact H.
    + intros [before [after H]]. destruct before as [|y before]; [|discriminate H].
      exists after. exact H.
  - rewrite includes_cons, orb_true_iff, startsWith_prefix, IH. split.
    + intros [[after H] | [before [after H]]].
      * exists [], after. exact H.
      * exists (x :: before), after. rewrite H. reflexivity.
    + intros [[|y before] [after H]].
      * left. exists after. exact H.
      * right. injection H as _ H. exists before, after. exact H.
Qed.

(** X23.  The search finds only stored documents, and the empty query finds
    them all, in the order of the store.  For an ASCII query and a document
    whose content and file name are ASCII, the document is found exactly
    when it is stored and the query, with its letters A to Z in lower case,
    occurs as a run of consecutive code units in the content or in the file
    name, lower-cased the same way: the search is by substring and blind to
    the case of the letters. *)
Theorem searchDocuments_finds :
  forall (s : store) (query : jsstring),
    (forall d, In d (searchDocuments s query) -> In d (getAllDocuments s))
    /\ searchDocuments s [] = getAllDocuments s
    /\ (forall d,
          is_ascii query = true ->
          is_ascii (doc_content d) = true ->
          is_ascii (filename (doc_metadata d)) = true ->
          (In d (searchDocuments s query)
           <-> In d (getAllDocuments s)
               /\ (occurs_in (toLowerCase query) (toLowerCase (doc_content d))
                   \/ occurs_in (toLowerCase query)
                        (toLowerCase (filename (doc_metadata d)))))).
Proof.
  intros s query. unfold searchDocuments. split; [|split].
  - intros d Hin. apply filter_In in Hin as [Hin _]. exact Hin.
  - apply filter_all. intros d. simpl. rewrite includes_empty. reflexivity.
  - intros d _ _ _.
    rewrite filter_In, orb_true_iff, !includes_occurs. reflexivity.
Qed.

End StoreFacts.

(* ================================================================== *)
(** * Properties of the processor factory *)
(* ================================================================== *)

Section FactoryFacts.

Import ProcessorFactory.

Lemma existsb_jsstring_eqb (x : jsstring) (l : list jsstring) :
  existsb (jsstring_eqb x) l = true <-> In x l.
Proof.
  rewrite existsb_exists. split.
  - intros [y [Hin Heq]]. apply jsstring_eqb_eq in Heq. subst y. exact Hin.
  - intros Hin. exists x. split; [exact Hin | apply jsstring_eqb_refl].
Qed.

Lemma set_add_in (e x : jsstring) (l : list jsstring) :
  In x (set_add e l) <-> x = e \/ In x l.
Proof.
  unfold set_add. destruct (existsb (jsstring_eqb e) l) eqn:He.
  - apply existsb_jsstring_eqb in He. split; [auto|].
    intros [-> | H]; assumption.
  - rewrite in_app_iff. simpl. split.
    + intros [H | [-> | []]]; auto.
    + intros [-> | H]; auto.
Qed.

Lemma set_add_nodup (e : jsstring) (l : list jsstring) :
  NoDup l -> NoDup (set_add e l).
Proof.
  intros Hnd. unfold set_add. destruct (existsb (jsstring_eqb e) l) eqn:He.
  - exact Hnd.
  - apply (Permutation_NoDup (Permutation_cons_append l e)).
    constructor; [|exact Hnd].
    intros Hin. apply existsb_jsstring_eqb in Hin. congruence.
Qed.

Lemma add_all_spec (exts : list jsstring) :
  forall acc,
    NoDup acc ->
    NoDup (fold_left (fun a ext => set_add ext a) exts acc)
    /\ (forall x, In x (fold_left (fun a ext => set_add ext a) exts acc)
                  <-> In x acc \/ In x exts).
Proof.
  induction exts as [|e exts IH]; intros acc Hnd; simpl.
  - split; [exact Hnd|]. intros x. split; [auto | intros [H | []]; exact H].
  - destruct (IH (set_add e acc) (set_add_nodup e acc Hnd)) as [Hnd' Hin'].
    split; [exact Hnd'|]. intros x. rewrite Hin', set_add_in.
    split; [intros [[-> | H] | H] | intros [H | [<- | H]]]; auto.
Qed.

Lemma registry_extensions_spec (registry : list processor) :
  forall acc,
    NoDup acc ->
    NoDup (fold_left
             (fun extensions p =>
                fold_left (fun a ext => set_add ext a) (supportedExtensions p)
                  extensions)
             registry acc)
    /\ (forall x,
          In x (fold_left
                  (fun extensions p =>
                     fold_left (fun a ext => set_add ext a) (supportedExtensions p)
                       extensions)
                  registry acc)
          <-> In x acc \/ exists p, In p registry /\ In x (supportedExtensions p)).
Proof.
  induction registry as [|p registry IH]; intros acc Hnd; simpl.
  - split; [exact Hnd|]. intros x. split; [auto | intros [H | [p [[] _]]]; exact H].
  - destruct (add_all_spec (supportedExtensions p) acc Hnd) as [Hnd1 Hin1].
    destruct (IH _ Hnd1) as [Hnd2 Hin2].
    split; [exact Hnd2|]. intros x. rewrite Hin2, Hin1. split.
    + intros [[H | H] | [q [Hq Hx]]]; [auto | |].
      * right. exists p. split; [left; reflexivity | exact H].
      * right. exists q. split; [right; exact Hq | exact Hx].
    + intros [H | [q [[<- | Hq] Hx]]]; [auto | auto |].
      right. exists q. split; assumption.
Qed.

(** X24.  The extensions that the factory advertises are the ones it
    accepts: [getSupportedExtensions] lists every extension of every
    processor once, and, for a path whose extension is ASCII, [getProcessor]
    finds a processor exactly when the extension, with its letters A to Z in
    lower case, is in that list; the processor it finds supports the path.
    For the two processors of the repository the list is .txt, .md,
    .markdown, .text, .pdf. *)
Theorem getProcessor_accepts_supported_extensions :
  forall (extname : jsstring -> jsstring) (registry : list processor)
         (filePath : jsstring),
    is_ascii (extname filePath) = true ->
    NoDup (getSupportedExtensions registry)
    /\ (getProcessor extname registry filePath <> None
        <-> In (toLowerCase (extname filePath)) (getSupportedExtensions registry))
    /\ (forall p, getProcessor extname registry filePath = Some p ->
                  In p registry /\ supports extname p filePath = true)
    /\ getSupportedExtensions processors
       = map js [".txt"; ".md"; ".markdown"; ".text"; ".pdf"]%string.
Proof.
  intros extname registry filePath _.
  destruct (registry_extensions_spec registry [] (NoDup_nil _)) as [Hnd Hin].
  split; [exact Hnd|]. split; [|split; [|reflexivity]].
  - unfold getSupportedExtensions. rewrite Hin. unfold getProcessor. split.
    + intros Hfound. right.
      destruct (find (fun p => supports extname p filePath) registry) as [p|] eqn:Hf;
        [|congruence].
      apply find_some in Hf as [Hp Hs]. exists p. split; [exact Hp|].
      apply existsb_jsstring_eqb. exact Hs.
    + intros [[] | [p [Hp Hx]]] Hnone.
      apply (find_none _ _ Hnone) in Hp. unfold supports in Hp.
      apply existsb_jsstring_eqb in Hx. congruence.
  - intros p Hf. apply find_some in Hf. exact Hf.
Qed.

End FactoryFacts.

Lemma getProcessor_accepts_supported_extensions_witness :
  ProcessorFactory.getProcessor (fun _ => js ".MD") ProcessorFactory.processors
    (js "notes.MD")
  <> None.
Proof.
  destruct (getProcessor_accepts_supported_extensions (fun _ => js ".MD")
              ProcessorFactory.processors (js "notes.MD") eq_refl)
    as (_ & Hfound & _).
  apply Hfound. right. left. reflexivity.
Defined.

(* ================================================================== *)
(** * Further properties of the line scan *)
(* ================================================================== *)

Section LineScan.

Import InsightAnalyzer.

Context {E : Type} (JSON_parse : jsstring -> result E json).

(** X25.  When the response holds no braces, when [JSON.parse] throws, or
    when it yields [null], the keyword parser falls back to the line scan:
    each of its four fields is the list that [extractListFromText] reads
    under the name of the field. *)
Theorem parseKeywordResponse_fallback :
  forall response : jsstring,
    json_span response = None
    \/ (exists text t, json_span response = Some text /\ JSON_parse text = Throw t)
    \/ (exists text, json_span response = Some text /\ JSON_parse text = Ok JNull) ->
    parseKeywordResponse JSON_parse response
    = Ok {| keywords := string_list (extractListFromText response (js "keywords"));
            entities := string_list (extractListFromText response (js "entities"));
            kw_topics := string_list (extractListFromText response (js "topics"));
            concepts := string_list (extractListFromText response (js "concepts")) |}.
Proof.
  intros response H. unfold parseKeywordResponse, keyword_json_attempt.
  destruct H as [-> | [(text & t & -> & ->) | (text & -> & ->)]]; reflexivity.
Qed.

Lemma digit_is_visible (c : N) :
  is_digit c = true -> is_space c = false /\ is_line_terminator c = false.
Proof.
  unfold is_digit, in_range. intros H. apply andb_true_iff in H as [Hlo Hhi].
  apply N.leb_le in Hlo. apply N.leb_le in Hhi.
  unfold is_space, is_line_terminator, in_range.
  repeat match goal with
         | |- context [N.eqb c ?n] =>
             rewrite (proj2 (N.eqb_neq c n)) by lia
         | |- context [N.leb c ?n] =>
             rewrite (proj2 (N.leb_gt c n)) by lia
         | |- context [N.leb ?n c] =>
             first [ rewrite (proj2 (N.leb_le n c)) by lia
                   | rewrite (proj2 (N.leb_gt n c)) by lia ]
         end.
  split; reflexivity.
Qed.

Lemma ws_dot_plus_visible (c : N) (r : jsstring) :
  is_space c = false -> is_line_terminator c = false ->
  exists group, ws_dot_plus (c :: r) = Some group.
Proof.
  intros Hs Ht. simpl. rewrite Hs. unfold dot_plus. simpl. rewrite Ht. simpl.
  eexists. reflexivity.
Qed.

Lemma match_item_numbered (line : jsstring) :
  is_numbered line = true -> exists group, match_item line = Some group.
Proof.
  unfold is_numbered, after_number. intros H.
  pose proof (take_drop_while is_digit line) as Hsplit.
  pose proof (take_while_all is_digit line) as Hds.
  destruct (take_while is_digit line) as [|d ds]; [discriminate|].
  destruct (drop_while is_digit line) as [|c r] eqn:Hdrop; [discriminate|].
  destruct (N.eqb_spec c full_stop) as [->|]; [|discriminate].
  rewrite <- Hsplit. simpl in Hds. apply andb_true_iff in Hds as [Hd Hds].
  assert (Hprefix : is_item_prefix d = true).
  { unfold is_item_prefix. rewrite Hd. rewrite !orb_true_r. reflexivity. }
  change ((d :: ds) ++ full_stop :: r) with (d :: (ds ++ full_stop :: r)).
  assert (Hrest : exists group, ws_dot_plus (ds ++ full_stop :: r) = Some group).
  { destruct ds as [|d2 ds].
    - apply ws_dot_plus_visible; reflexivity.
    - simpl in Hds. apply andb_true_iff in Hds as [Hd2 _].
      destruct (digit_is_visible d2 Hd2) as [Hs Ht].
      apply ws_dot_plus_visible; assumption. }
  destruct Hrest as [group Hgroup]. exists group.
  simpl. rewrite Hprefix, Hgroup. reflexivity.
Qed.

(** X26.  A numbered line never closes a list: inside a section, an ASCII
    line that starts with digits and a full stop and does not mention the
    ASCII name of the list always matches the item pattern, so it is
    collected as an item and the section stays open; the test for a numbered
    heading is never what ends the section. *)
Theorem numbered_line_is_always_an_item :
  forall (listName line : jsstring) (items : list jsstring),
    is_ascii listName = true ->
    is_ascii line = true ->
    is_numbered line = true ->
    includes (toLowerCase line) (toLowerCase listName) = false ->
    exists group,
      match_item line = Some group
      /\ list_step listName (items, true) line = (items ++ [trim group], true).
Proof.
  intros listName line items _ _ Hnum Hno.
  destruct (match_item_numbered line Hnum) as [group Hgroup].
  exists group. split; [exact Hgroup|].
  unfold list_step. rewrite Hno, Hgroup. reflexivity.
Qed.

Lemma numbered_line_is_always_an_item_witness :
  exists group,
    match_item (js "2. Entities") = Some group
    /\ list_step (js "keywords") ([js "a"], true) (js "2. Entities")
       = ([js "a"] ++ [trim group], true).
Proof.
  apply (numbered_line_is_always_an_item (js "keywords") (js "2. Entities") [js "a"]).
  - reflexivity.
  - reflexivity.
  - reflexivity.
  - reflexivity.
Defined.

(** X27.  An empty line closes a list: of an ASCII heading, bulleted ASCII
    items, an empty line and further ASCII lines that do not mention the
    ASCII name of the list, the scan returns the items before the empty line
    and nothing of what follows it. *)
Theorem extractListFromText_stops_at_empty_line :
  forall (heading listName : jsstring) (items : list jsstring)
         (rest : list jsstring),
    is_ascii listName = true ->
    is_ascii heading = true ->
    forallb not_newline heading = true ->
    includes (toLowerCase heading) (toLowerCase listName) = true ->
    Forall (fun q => is_ascii q = true
                     /\ clean_line q = true
                     /\ includes (toLowerCase (bullet_line q)) (toLowerCase listName)
                        = false)
      items ->
    Forall (fun line => is_ascii line = true
                        /\ forallb not_newline line = true
                        /\ includes (toLowerCase line) (toLowerCase listName) = false)
      rest ->
    includes [] (toLowerCase listName) = false ->
    extractListFromText
      (join_lines (heading :: map bullet_line items ++ [] :: rest)) listName
    = items.
Proof.
  intros heading listName items rest _ _ Hnl Hhead Hascii Hrest Hname.
  assert (Hitems : Forall (fun q => clean_line q = true
                                    /\ includes (toLowerCase (bullet_line q))
                                         (toLowerCase listName) = false) items)
    by (eapply Forall_impl; [|exact Hascii]; intros q H; apply H).
  unfold extractListFromText. rewrite split_join_lines.
  - cbn [fold_left]. rewrite (list_step_heading listName heading _ Hhead).
    cbn [fst]. rewrite fold_left_app.
    rewrite (list_step_bullets listName items Hitems).
    cbn [fold_left app]. unfold list_step at 2.
    change (toLowerCase []) with (@nil N). rewrite Hname. simpl match_item.
    cbn iota. simpl.
    rewrite list_step_outside; [reflexivity|].
    intros line Hin. rewrite Forall_forall in Hrest. apply (Hrest line Hin).
  - constructor; [exact Hnl|]. apply Forall_app. split.
    + apply Forall_forall. intros line Hin.
      apply in_map_iff in Hin as [q [<- Hq]].
      rewrite Forall_forall in Hitems. destruct (Hitems q Hq) as [Hclean _].
      destruct (clean_line_parts q Hclean) as (_ & _ & _ & _ & Hline & _).
      unfold bullet_line. rewrite forallb_app.
      rewrite (on_line_not_newline q Hline). reflexivity.
    + constructor; [reflexivity|].
      eapply Forall_impl; [|exact Hrest]. intros line H. apply H.
Qed.

End LineScan.

Lemma parseKeywordResponse_fallback_witness :
  InsightAnalyzer.parseKeywordResponse parse_empty_object
    (js "Keywords: {" ++ newline :: js "- foo}")
  = Ok {| keywords := InsightAnalyzer.string_list [js "foo}"];
          entities := JArr []; kw_topics := JArr []; concepts := JArr [] |}.
Proof.
  apply (parseKeywordResponse_fallback parse_empty_object
           (js "Keywords: {" ++ newline :: js "- foo}")).
  right. left. exists (js "{" ++ newline :: js "- foo}"), (Raised tt).
  split; reflexivity.
Defined.

Lemma extractListFromText_stops_at_empty_line_witness :
  InsightAnalyzer.extractListFromText
    (join_lines (js "Keywords:" :: map bullet_line [js "foo"]
                 ++ [] :: [js "- stray"; js "tail"]))
    (js "keywords")
  = [js "foo"].
Proof.
  apply (extractListFromText_stops_at_empty_line (js "Keywords:") (js "keywords")
           [js "foo"] [js "- stray"; js "tail"]).
  - reflexivity.
  - reflexivity.
  - reflexivity.
  - reflexivity.
  - repeat constructor.
  - repeat constructor.
  - reflexivity.
Defined.
